(** * The request-task store of [sky/api/requests/tasks.py]

    A shallow embedding of the request-task persistence layer: the status
    enumeration and its ordering, the task record with its error and
    return-value accessors, the encode/decode pair that moves a record
    through the textual row format, and the store operations that run over
    a shared SQLite file guarded by per-request lock files. *)

From Stdlib Require Import ZArith Ascii String Decimal DecimalFacts DecimalPos DecimalZ.
From stdpp Require Import base option list strings gmap.

#[local] Set Warnings "-register-all".

Local Open Scope Z_scope.

(** ** Python values *)

(** An object that is not one of the built-in containers or scalars below,
    seen through the two things this module asks of it: the name of its
    class, [type(o).__name__], and its [str(o)].  Raised exceptions are
    such objects. *)
Record pyobject : Type := PyObject {
  type_name : string;
  str_of : string;
}.

(** The dynamically typed values that the fields annotated [Any] or
    [Dict[str, Any]] can hold.  Strings are strings of code points below
    256 (Rocq's [ascii]); floats are not modelled.  A dict is the list of
    its items in insertion order. *)
Inductive pyval : Type :=
| PNone
| PBool (b : bool)
| PInt (z : Z)
| PStr (s : string)
| PList (l : list pyval)
| PTuple (l : list pyval)
| PDict (d : list (pyval * pyval))
| PObj (o : pyobject).

(** ** Results of computations that may raise *)

Inductive result (A : Type) : Type :=
| Ok (a : A)
| Err (e : pyobject).
Arguments Ok {A} a.
Arguments Err {A} e.

#[global] Instance result_ret : MRet result := λ A a, Ok a.
#[global] Instance result_bind : MBind result := λ A B f m,
  match m with
  | Ok a => f a
  | Err e => Err e
  end.

Definition TypeError (msg : string) : pyobject := PyObject "TypeError" msg.
Definition ValueError (msg : string) : pyobject := PyObject "ValueError" msg.
(** [KeyError(key)] for a string key; its [str] is the [repr] of the key. *)
Definition KeyError (key : string) : pyobject :=
  PyObject "KeyError" ("'" +:+ key +:+ "'").
Definition JSONDecodeError (msg : string) : pyobject :=
  PyObject "JSONDecodeError" msg.
Definition OperationalError (msg : string) : pyobject :=
  PyObject "OperationalError" msg.
Definition RecursionError (msg : string) : pyobject :=
  PyObject "RecursionError" msg.

(** [type(v).__name__] for the values above. *)
Definition py_type_name (v : pyval) : string :=
  match v with
  | PNone => "NoneType"
  | PBool _ => "bool"
  | PInt _ => "int"
  | PStr _ => "str"
  | PList _ => "list"
  | PTuple _ => "tuple"
  | PDict _ => "dict"
  | PObj o => type_name o
  end.

(** ** [json.dumps]: the textual storage format

    The encoder of Python's [json] module with its default settings:
    separators [", "] and [": "], [ensure_ascii=True], tuples written as
    arrays, dict keys of type int, bool and None turned into strings, and
    [TypeError] for everything else.

    Two limits of the interpreter show in it.  Turning an int of more than
    4300 digits into text raises [ValueError].  Containers nested deeper
    than the interpreter's recursion limit allows raise [RecursionError];
    that limit is shared with the callers, so the depth at which it is hit
    varies.  The model raises at [max_nesting], a depth that the default
    limit of 1000 frames leaves room for; what is said below about values
    of at most that depth holds of the interpreter as well. *)

Definition max_str_digits : N := 4300.

Definition max_nesting : nat := 100.

Fixpoint digits_text (d : Decimal.uint) : string :=
  match d with
  | Nil => ""
  | D0 d => String "0"%char (digits_text d)
  | D1 d => String "1"%char (digits_text d)
  | D2 d => String "2"%char (digits_text d)
  | D3 d => String "3"%char (digits_text d)
  | D4 d => String "4"%char (digits_text d)
  | D5 d => String "5"%char (digits_text d)
  | D6 d => String "6"%char (digits_text d)
  | D7 d => String "7"%char (digits_text d)
  | D8 d => String "8"%char (digits_text d)
  | D9 d => String "9"%char (digits_text d)
  end.

(** The text of an int: its decimal digits after the sign. *)
Definition int_text (z : Z) : string :=
  match Z.to_int z with
  | Decimal.Pos d => digits_text d
  | Decimal.Neg d => String "-"%char (digits_text d)
  end.

(** The number of decimal digits of an int. *)
Definition int_digits (z : Z) : nat :=
  match Z.to_int z with
  | Decimal.Pos d | Decimal.Neg d => Decimal.nb_digits d
  end.

Definition within_str_digits (n : nat) : bool :=
  (N.of_nat n <=? max_str_digits)%N.

(** [str(z)] for an int: [ValueError] above the limit on the conversion of
    integers to text. *)
Definition int_repr (z : Z) : result string :=
  if within_str_digits (int_digits z) then Ok (int_text z)
  else Err (ValueError
              "Exceeds the limit (4300 digits) for integer string conversion").

(** The double quote character. *)
Definition dquote : ascii := ascii_of_N 34.

Definition hex_digit (n : N) : ascii :=
  match n with
  | 0 => "0" | 1 => "1" | 2 => "2" | 3 => "3" | 4 => "4" | 5 => "5"
  | 6 => "6" | 7 => "7" | 8 => "8" | 9 => "9" | 10 => "a" | 11 => "b"
  | 12 => "c" | 13 => "d" | 14 => "e" | _ => "f"
  end%N%char.

(** The replacement of one character inside a JSON string: the short
    escapes of [ESCAPE_DCT], the character itself when it is printable
    ASCII, and [\u00xx] otherwise. *)
Definition escape_char (c : ascii) : string :=
  let n := N_of_ascii c in
  if (n =? 34)%N then String "\"%char (String dquote "")
  else if (n =? 92)%N then "\\"
  else if (n =? 8)%N then "\b"
  else if (n =? 12)%N then "\f"
  else if (n =? 10)%N then "\n"
  else if (n =? 13)%N then "\r"
  else if (n =? 9)%N then "\t"
  else if ((32 <=? n) && (n <=? 126))%N then String c ""
  else "\u00" +:+ String (hex_digit (n / 16)) (String (hex_digit (n mod 16)) "").

Fixpoint escape_text (s : string) : string :=
  match s with
  | EmptyString => ""
  | String c s' => escape_char c +:+ escape_text s'
  end.

Definition quote_text (s : string) : string :=
  String dquote (escape_text s +:+ String dquote "").

(** The text of a dict key, as [_iterencode_dict] derives it. *)
Definition key_text (k : pyval) : result string :=
  match k with
  | PStr s => Ok s
  | PBool true => Ok "true"
  | PBool false => Ok "false"
  | PNone => Ok "null"
  | PInt z => int_repr z
  | _ => Err (TypeError ("keys must be str, int, float, bool or None, not "
                         +:+ py_type_name k))
  end.

(** [", ".join] over the encoded items of a container; the first item that
    cannot be encoded raises. *)
Definition join_items {A : Type} (f : A → result string)
  : list A → result string :=
  fix items (l : list A) : result string :=
    match l with
    | [] => Ok ""
    | x :: l' =>
        t ← f x;
        match l' with
        | [] => Ok t
        | _ :: _ => ts ← items l'; Ok (t +:+ ", " +:+ ts)
        end
    end.

Definition too_deep_encoding : pyobject :=
  RecursionError "maximum recursion depth exceeded while encoding a JSON object".

(** The encoder with [depth] levels of containers still allowed. *)
Fixpoint dumps_value (depth : nat) (v : pyval) {struct v} : result string :=
  match v with
  | PNone => Ok "null"
  | PBool true => Ok "true"
  | PBool false => Ok "false"
  | PInt z => int_repr z
  | PStr s => Ok (quote_text s)
  | PList l | PTuple l =>
      match depth with
      | O => Err too_deep_encoding
      | S depth' =>
          ts ← join_items (dumps_value depth') l; Ok ("[" +:+ ts +:+ "]")
      end
  | PDict d =>
      match depth with
      | O => Err too_deep_encoding
      | S depth' =>
          ts ← join_items (λ kv : pyval * pyval,
                             kt ← key_text kv.1;
                             t ← dumps_value depth' kv.2;
                             Ok (quote_text kt +:+ ": " +:+ t)) d;
          Ok ("{" +:+ ts +:+ "}")
      end
  | PObj o =>
      Err (TypeError ("Object of type " +:+ type_name o
                      +:+ " is not JSON serializable"))
  end.

Definition json_dumps (v : pyval) : result string :=
  dumps_value max_nesting v.

(** ** [json.loads]

    The decoder of Python's [json] module on the texts this model can
    hold: the literals [null], [true] and [false], integers, strings with
    every escape of the JSON grammar, arrays and objects.  Whatever this
    decoder reads, Python's reads in the same way.  It refuses more than
    Python's does: a number with a fraction or an exponent, [NaN] and
    [Infinity] would be floats, and an escape [\uXXXX] of a code point
    above 255 has no place in the strings of this model; nothing below is
    concluded from the refusal of a text.  The limits of the encoder apply
    here too: an integer of more than 4300 digits and containers nested
    deeper than [max_nesting] are refused. *)

Definition is_ws (c : ascii) : bool :=
  let n := N_of_ascii c in
  ((n =? 32) || (n =? 9) || (n =? 10) || (n =? 13))%N.

Fixpoint skip_ws (s : string) : string :=
  match s with
  | String c s' => if is_ws c then skip_ws s' else s
  | EmptyString => s
  end.

Definition digit_of (c : ascii) : option (Decimal.uint → Decimal.uint) :=
  match N_of_ascii c with
  | 48 => Some D0 | 49 => Some D1 | 50 => Some D2 | 51 => Some D3
  | 52 => Some D4 | 53 => Some D5 | 54 => Some D6 | 55 => Some D7
  | 56 => Some D8 | 57 => Some D9 | _ => None
  end%N.

Fixpoint scan_digits (s : string) : Decimal.uint * string :=
  match s with
  | String c r =>
      match digit_of c with
      | Some d => let '(ds, r') := scan_digits r in (d ds, r')
      | None => (Nil, s)
      end
  | EmptyString => (Nil, s)
  end.

Definition hex_value (c : ascii) : option N :=
  let n := N_of_ascii c in
  if ((48 <=? n) && (n <=? 57))%N then Some (n - 48)%N
  else if ((97 <=? n) && (n <=? 102))%N then Some (n - 87)%N
  else if ((65 <=? n) && (n <=? 70))%N then Some (n - 55)%N
  else None.

Definition hex4 (a b c d : ascii) : option N :=
  match hex_value a, hex_value b, hex_value c, hex_value d with
  | Some x, Some y, Some z, Some w =>
      Some (((x * 16 + y) * 16 + z) * 16 + w)%N
  | _, _, _, _ => None
  end.

(** The character a one-letter escape stands for ([BACKSLASH] in
    [json.decoder]). *)
Definition unescape_char (e : ascii) : option ascii :=
  match N_of_ascii e with
  | 34 => Some dquote
  | 92 => Some "\"%char
  | 47 => Some "/"%char
  | 98 => Some (ascii_of_N 8)
  | 102 => Some (ascii_of_N 12)
  | 110 => Some (ascii_of_N 10)
  | 114 => Some (ascii_of_N 13)
  | 116 => Some (ascii_of_N 9)
  | _ => None
  end%N.

(** [py_scanstring] in strict mode, from just after the opening quote: the
    decoded string and the text after the closing quote. *)
Fixpoint scanstring (s : string) : option (string * string) :=
  match s with
  | EmptyString => None
  | String c r =>
      if (N_of_ascii c =? 34)%N then Some ("", r)
      else if (N_of_ascii c =? 92)%N then
        match r with
        | EmptyString => None
        | String e r1 =>
            if (N_of_ascii e =? 117)%N then
              match r1 with
              | String h1 (String h2 (String h3 (String h4 r2))) =>
                  match hex4 h1 h2 h3 h4 with
                  | Some n =>
                      if (n <? 256)%N then
                        match scanstring r2 with
                        | Some (str, r') => Some (String (ascii_of_N n) str, r')
                        | None => None
                        end
                      else None
                  | None => None
                  end
              | _ => None
              end
            else
              match unescape_char e with
              | Some ch =>
                  match scanstring r1 with
                  | Some (str, r') => Some (String ch str, r')
                  | None => None
                  end
              | None => None
              end
        end
      else if (N_of_ascii c <? 32)%N then None
      else
        match scanstring r with
        | Some (str, r') => Some (String c str, r')
        | None => None
        end
  end.

(** [s] without its prefix [p], when it starts with it. *)
Fixpoint strip_prefix (p s : string) : option string :=
  match p with
  | EmptyString => Some s
  | String a p' =>
      match s with
      | String b s' => if Ascii.eqb a b then strip_prefix p' s' else None
      | EmptyString => None
      end
  end.

(** An integer literal: an optional minus sign and a run of at most 4300
    digits with no superfluous leading zero, not followed by a fraction or
    exponent. *)
Definition scan_number (s : string) : option (pyval * string) :=
  let '(neg, s1) := match s with
                    | String c r =>
                        if (N_of_ascii c =? 45)%N then (true, r) else (false, s)
                    | EmptyString => (false, s)
                    end in
  let '(ds, r) := scan_digits s1 in
  let float_follows :=
    match r with
    | String c _ =>
        let n := N_of_ascii c in ((n =? 46) || (n =? 101) || (n =? 69))%N
    | EmptyString => false
    end in
  match ds with
  | Nil => None
  | _ =>
      match ds with
      | D0 (D0 _ | D1 _ | D2 _ | D3 _ | D4 _ | D5 _ | D6 _ | D7 _ | D8 _
           | D9 _) => None
      | _ =>
          if float_follows then None
          else if within_str_digits (Decimal.nb_digits ds) then
            Some (PInt (Z.of_int (if neg then Decimal.Neg ds
                                  else Decimal.Pos ds)), r)
          else None
      end
  end.

(** [dict[k] = v]: an existing key keeps its place and takes the new
    value, a new key goes last. *)
Fixpoint dict_set (d : list (string * pyval)) (k : string) (v : pyval)
  : list (string * pyval) :=
  match d with
  | [] => [(k, v)]
  | (k', v') :: d' =>
      if String.eqb k k' then (k', v) :: d'
      else (k', v') :: dict_set d' k v
  end.

Definition dict_of_pairs (ms : list (string * pyval))
  : list (pyval * pyval) :=
  map (λ kv, (PStr kv.1, kv.2))
      (fold_left (λ d kv, dict_set d kv.1 kv.2) ms []).

Fixpoint scan_once (fuel depth : nat) (s : string)
  : option (pyval * string) :=
  match fuel with
  | O => None
  | S fuel =>
      match s with
      | EmptyString => None
      | String c r =>
          let n := N_of_ascii c in
          if (n =? 34)%N then
            match scanstring r with
            | Some (str, r') => Some (PStr str, r')
            | None => None
            end
          else if (n =? 91)%N then
            match depth with
            | O => None
            | S depth' =>
                match skip_ws r with
                | String c' r' =>
                    if (N_of_ascii c' =? 93)%N then Some (PList [], r')
                    else
                      match scan_array fuel depth' (String c' r') with
                      | Some (vs, r'') => Some (PList vs, r'')
                      | None => None
                      end
                | EmptyString => None
                end
            end
          else if (n =? 123)%N then
            match depth with
            | O => None
            | S depth' =>
                match skip_ws r with
                | String c' r' =>
                    if (N_of_ascii c' =? 125)%N then Some (PDict [], r')
                    else
                      match scan_object fuel depth' (String c' r') with
                      | Some (ms, r'') => Some (PDict (dict_of_pairs ms), r'')
                      | None => None
                      end
                | EmptyString => None
                end
            end
          else
            match strip_prefix "null" s with
            | Some r' => Some (PNone, r')
            | None =>
            match strip_prefix "true" s with
            | Some r' => Some (PBool true, r')
            | None =>
            match strip_prefix "false" s with
            | Some r' => Some (PBool false, r')
            | None => scan_number s
            end end end
      end
  end
with scan_array (fuel depth : nat) (s : string)
  : option (list pyval * string) :=
  match fuel with
  | O => None
  | S fuel =>
      match scan_once fuel depth s with
      | None => None
      | Some (v, r) =>
          match skip_ws r with
          | String c r' =>
              if (N_of_ascii c =? 44)%N then
                match scan_array fuel depth (skip_ws r') with
                | Some (vs, r'') => Some (v :: vs, r'')
                | None => None
                end
              else if (N_of_ascii c =? 93)%N then Some ([v], r')
              else None
          | EmptyString => None
          end
      end
  end
with scan_object (fuel depth : nat) (s : string)
  : option (list (string * pyval) * string) :=
  match fuel with
  | O => None
  | S fuel =>
      match s with
      | EmptyString => None
      | String q r =>
          if (N_of_ascii q =? 34)%N then
            match scanstring r with
            | None => None
            | Some (k, r1) =>
                match skip_ws r1 with
                | String c r2 =>
                    if (N_of_ascii c =? 58)%N then
                      match scan_once fuel depth (skip_ws r2) with
                      | None => None
                      | Some (v, r3) =>
                          match skip_ws r3 with
                          | String c' r4 =>
                              if (N_of_ascii c' =? 44)%N then
                                match scan_object fuel depth (skip_ws r4) with
                                | Some (ms, r5) => Some ((k, v) :: ms, r5)
                                | None => None
                                end
                              else if (N_of_ascii c' =? 125)%N
                              then Some ([(k, v)], r4)
                              else None
                          | EmptyString => None
                          end
                      end
                    else None
                | EmptyString => None
                end
            end
          else None
      end
  end.

(** [json.loads(s)]: leading blanks are skipped, one value is read, and
    anything but blanks after it is an error. *)
Definition json_loads (s : string) : result pyval :=
  match scan_once (S (String.length s)) max_nesting (skip_ws s) with
  | Some (v, r) =>
      match skip_ws r with
      | EmptyString => Ok v
      | String _ _ => Err (JSONDecodeError "Extra data")
      end
  | None => Err (JSONDecodeError "Expecting value")
  end.


(** The values the textual format represents faithfully: None, booleans,
    integers of at most 4300 digits, strings, lists of such values, and
    dicts of such values whose keys are strings, different from one
    another; with containers nested at most [depth] deep. *)
Definition key_str (k : pyval) : string :=
  match k with
  | PStr s => s
  | _ => ""
  end.

Fixpoint native_within (depth : nat) (v : pyval) {struct v} : bool :=
  match v with
  | PNone | PBool _ | PStr _ => true
  | PInt z => within_str_digits (int_digits z)
  | PList l =>
      match depth with
      | O => false
      | S depth' => forallb (native_within depth') l
      end
  | PTuple _ => false
  | PDict d =>
      match depth with
      | O => false
      | S depth' =>
          forallb (λ kv : pyval * pyval,
                     match kv.1 with
                     | PStr _ => native_within depth' kv.2
                     | _ => false
                     end) d
          && bool_decide (NoDup (map (λ kv : pyval * pyval, key_str kv.1) d))
      end
  | PObj _ => false
  end.

Definition json_native (v : pyval) : bool := native_within max_nesting v.

(** ** [RequestStatus] *)

Inductive RequestStatus : Type :=
| PENDING
| RUNNING
| SUCCEEDED
| FAILED
| ABORTED.

#[global] Instance RequestStatus_eq_dec : EqDecision RequestStatus.
Proof. solve_decision. Defined.

(** [list(RequestStatus)]: the members in definition order. *)
Definition RequestStatus_members : list RequestStatus :=
  [PENDING; RUNNING; SUCCEEDED; FAILED; ABORTED].

(** [status.value]. *)
Definition RequestStatus_value (s : RequestStatus) : string :=
  match s with
  | PENDING => "PENDING"
  | RUNNING => "RUNNING"
  | SUCCEEDED => "SUCCEEDED"
  | FAILED => "FAILED"
  | ABORTED => "ABORTED"
  end.

(** [RequestStatus(value)]: the member with that value, [ValueError] when
    there is none. *)
Definition RequestStatus_of_value (v : string) : result RequestStatus :=
  match find (λ s, String.eqb (RequestStatus_value s) v)
             RequestStatus_members with
  | Some s => Ok s
  | None => Err (ValueError ("'" +:+ v +:+ "' is not a valid RequestStatus"))
  end.

(** [l.index(x)]: the position of the first item equal to [x]. *)
Fixpoint list_index {A : Type} `{EqDecision A} (x : A) (l : list A)
  : result nat :=
  match l with
  | [] => Err (ValueError "list.index(x): x not in list")
  | y :: l' =>
      if decide (y = x) then Ok O
      else i ← list_index x l'; Ok (S i)
  end.

(** [RequestStatus.__gt__]. *)
Definition RequestStatus_gt (self other : RequestStatus) : result bool :=
  i ← list_index self RequestStatus_members;
  j ← list_index other RequestStatus_members;
  Ok (Nat.ltb j i).

(** The place of a status in the order the specification gives,
    [PENDING < RUNNING < SUCCEEDED < FAILED < ABORTED]. *)
Definition declaration_position (s : RequestStatus) : nat :=
  match s with
  | PENDING => 0
  | RUNNING => 1
  | SUCCEEDED => 2
  | FAILED => 3
  | ABORTED => 4
  end.

(** ** The collaborators of the record: encoders and decoders *)

(** Modelled from the spec: [sky.api.requests.encoders] and
    [sky.api.requests.decoders] are not among the sources.  The
    specification treats them as "a general-purpose
    serialize-then-encode-as-text step" for error objects with a decoder
    that "performs the inverse", and as a lookup from the task's name to a
    transform of the return value, where "unknown names fail closed". *)
Class Handlers : Type := {
  _pickle_and_encode : pyobject → string;
  _decode_and_unpickle : pyval → result pyval;
  encoders_get_handler : string → result (pyval → result pyval);
  decoders_get_handler : string → result (pyval → result pyval);
}.

(** The law the specification states for the error payload: decoding the
    text of an encoded object reconstructs the object. *)
Definition pickle_inverse `{Handlers} : Prop :=
  ∀ o, _decode_and_unpickle (PStr (_pickle_and_encode o)) = Ok (PObj o).

(** [v[k]] for a string key. *)
Definition py_getitem (v : pyval) (k : string) : result pyval :=
  match v with
  | PDict d =>
      match find (λ kv : pyval * pyval,
                    match kv.1 with
                    | PStr k' => String.eqb k' k
                    | _ => false
                    end) d with
      | Some kv => Ok kv.2
      | None => Err (KeyError k)
      end
  | PList _ =>
      Err (TypeError "list indices must be integers or slices, not str")
  | PTuple _ =>
      Err (TypeError "tuple indices must be integers or slices, not str")
  | PStr _ => Err (TypeError "string indices must be integers, not 'str'")
  | _ => Err (TypeError ("'" +:+ py_type_name v
                         +:+ "' object is not subscriptable"))
  end.

(** ** The payload and the task record *)

Definition REQUEST_TASK_COLUMNS : list string :=
  ["request_id"; "name"; "entrypoint"; "request_body"; "status";
   "return_value"; "error"; "pid"].

Module RequestTaskPayload.
Record t : Type := mk {
  request_id : string;
  name : string;
  entrypoint : string;
  request_body : string;
  status : string;
  return_value : string;
  error : string;
  pid : option Z;
}.
End RequestTaskPayload.

(** A value in a column of a SQLite row. *)
Inductive sqlval : Type :=
| SqlNull
| SqlInt (z : Z)
| SqlText (s : string).

#[global] Instance sqlval_eq_dec : EqDecision sqlval.
Proof. solve_decision. Defined.

Definition Row : Type := list sqlval.

(** [getattr(payload, k)] as the value bound to a statement parameter. *)
Definition payload_getattr (p : RequestTaskPayload.t) (k : string)
  : result sqlval :=
  if String.eqb k "request_id" then Ok (SqlText (RequestTaskPayload.request_id p))
  else if String.eqb k "name" then Ok (SqlText (RequestTaskPayload.name p))
  else if String.eqb k "entrypoint"
       then Ok (SqlText (RequestTaskPayload.entrypoint p))
  else if String.eqb k "request_body"
       then Ok (SqlText (RequestTaskPayload.request_body p))
  else if String.eqb k "status" then Ok (SqlText (RequestTaskPayload.status p))
  else if String.eqb k "return_value"
       then Ok (SqlText (RequestTaskPayload.return_value p))
  else if String.eqb k "error" then Ok (SqlText (RequestTaskPayload.error p))
  else if String.eqb k "pid"
       then Ok (match RequestTaskPayload.pid p with
                | Some z => SqlInt z
                | None => SqlNull
                end)
  else Err (PyObject "AttributeError" k).

(** One keyword argument of the payload's constructor, taken from the
    dict the row was zipped into. *)
Definition kwarg (d : list (string * sqlval)) (k : string) : result sqlval :=
  match find (λ kv : string * sqlval, String.eqb kv.1 k) d with
  | Some kv => Ok kv.2
  | None => Err (TypeError ("missing required argument: " +:+ k))
  end.

(** The payload's fields are annotated [str] and [Optional[int]]; a column
    that holds anything else is reported here. *)
Definition as_str (v : sqlval) : result string :=
  match v with
  | SqlText s => Ok s
  | _ => Err (TypeError "expected str")
  end.

Definition as_optional_int (v : sqlval) : result (option Z) :=
  match v with
  | SqlNull => Ok None
  | SqlInt z => Ok (Some z)
  | SqlText _ => Err (TypeError "expected int or None")
  end.

(** The payload built from [dict(zip(REQUEST_TASK_COLUMNS, row))]. *)
Definition payload_of_row (row : Row) : result RequestTaskPayload.t :=
  let d := zip REQUEST_TASK_COLUMNS row in
  request_id ← kwarg d "request_id" ≫= as_str;
  name ← kwarg d "name" ≫= as_str;
  entrypoint ← kwarg d "entrypoint" ≫= as_str;
  request_body ← kwarg d "request_body" ≫= as_str;
  status ← kwarg d "status" ≫= as_str;
  return_value ← kwarg d "return_value" ≫= as_str;
  error ← kwarg d "error" ≫= as_str;
  pid ← kwarg d "pid" ≫= as_optional_int;
  Ok (RequestTaskPayload.mk request_id name entrypoint request_body status
                            return_value error pid).

(** [tuple(getattr(payload, k) for k in REQUEST_TASK_COLUMNS)]. *)
Definition row_of_payload (p : RequestTaskPayload.t) : result Row :=
  foldr (λ k acc, v ← payload_getattr p k; vs ← acc; Ok (v :: vs))
        (Ok []) REQUEST_TASK_COLUMNS.

(** ** Effects

    What the module does to the world outside it: the global [_DB], the
    SQLite file, the lock files and standard output.  A computation is a
    tree of such actions; every action answers with a result, so that an
    exception raised by the library can be caught by the code around it. *)

(** Modelled from the spec: [sky.utils.db_utils.SQLiteConn] is not among
    the sources.  It is the "open handle" that "subsequent operations
    reuse"; here it is the open database file, named by the number the
    file was given when it was created. *)
Record SQLiteConn : Type := { conn : nat }.

Inductive statement : Type :=
| PragmaJournalModeWAL
| CreateTableIfNotExists
| SelectByRequestId (request_id : string)
| InsertOrReplace (row : Row).

(** A piece of the text given to [print]: literal text, or a replacement
    field [{v}] of an f-string, which stands for [str(v)]. *)
Inductive fragment : Type :=
| Lit (s : string)
| Fmt (v : pyval).

(** The actions: reading and assigning the global [_DB]; asking whether
    the platform is WSL; [sqlite3.connect(path)]; one statement on a
    connection; removing a file; acquiring and releasing a
    [filelock.FileLock]; [print]. *)
Inductive action : Type :=
| GetDB
| SetDB (c : SQLiteConn)
| IsWsl
| Connect (path : string)
| Execute (c : SQLiteConn) (stmt : statement)
| RemoveFileIfExists (path : string)
| LockAcquire (path : string)
| LockRelease (path : string)
| Print (text : list fragment).

(** What an action answers with. *)
Definition reply (a : action) : Type :=
  match a with
  | GetDB => option SQLiteConn
  | IsWsl => bool
  | Connect _ => SQLiteConn
  | Execute _ (SelectByRequestId _) => option Row
  | _ => unit
  end.

Inductive prog (A : Type) : Type :=
| Ret (a : A)
| Raise (e : pyobject)
| Act (a : action) (k : result (reply a) → prog A).
Arguments Ret {A} a.
Arguments Raise {A} e.
Arguments Act {A} a k.

Fixpoint prog_bind {A B : Type} (f : A → prog B) (m : prog A) : prog B :=
  match m with
  | Ret a => f a
  | Raise e => Raise e
  | Act a k => Act a (λ r, prog_bind f (k r))
  end.

#[global] Instance prog_ret : MRet prog := λ A a, Ret a.
#[global] Instance prog_mbind : MBind prog := λ A B f m, prog_bind f m.

(** Perform one action; an exception of the library propagates. *)
Definition perform (a : action) : prog (reply a) :=
  Act a (λ r, match r with
              | Ok b => Ret b
              | Err e => Raise e
              end).

(** A computation without effects, inside one with effects. *)
Definition lift {A : Type} (r : result A) : prog A :=
  match r with
  | Ok a => Ret a
  | Err e => Raise e
  end.

(** [try: body except cls as e: handler(e)], where the class of the
    exception is compared by name. *)
Fixpoint try_except {A : Type} (body : prog A) (cls : string)
    (handler : pyobject → prog A) : prog A :=
  match body with
  | Ret a => Ret a
  | Raise e => if String.eqb (type_name e) cls then handler e else Raise e
  | Act a k => Act a (λ r, try_except (k r) cls handler)
  end.

(** [try: body finally: cleanup], the shape of a [with] statement: the
    cleanup runs on every way out of the body. *)
Fixpoint try_finally {A : Type} (body : prog A) (cleanup : prog unit)
  : prog A :=
  match body with
  | Ret a => cleanup ;; Ret a
  | Raise e => cleanup ;; Raise e
  | Act a k => Act a (λ r, try_finally (k r) cleanup)
  end.

(** The newline character. *)
Definition newline : string := String (ascii_of_N 10) "".

(** ** [RequestTask] *)

Module RequestTask.
Record t : Type := mk {
  request_id : string;
  name : string;
  entrypoint : string;
  request_body : pyval;
  status : RequestStatus;
  return_value : pyval;
  error : pyval;
  pid : option Z;
}.

(** A method that may assign to the fields of [self]: its result and
    the record as the call leaves it. *)
Definition method (A : Type) : Type := t → result A * t.

Section WithHandlers.
Context `{Handlers}.

Definition set_error (error : pyobject) : method unit := λ self,
  (Ok (),
   mk (request_id self) (name self) (entrypoint self)
      (request_body self) (status self) (return_value self)
      (PDict [(PStr "object", PStr (_pickle_and_encode error));
              (PStr "type", PStr (type_name error));
              (PStr "message", PStr (str_of error))])
      (pid self)).

Definition get_error : method pyval := λ self,
  (match RequestTask.error self with
   | PNone => Ok PNone
   | err =>
       object ← py_getitem err "object" ≫= _decode_and_unpickle;
       type ← py_getitem err "type";
       message ← py_getitem err "message";
       Ok (PDict [(PStr "object", object);
                  (PStr "type", type);
                  (PStr "message", message)])
   end, self).

Definition set_return_value (return_value : pyval) : method unit :=
  λ self,
  match encoders_get_handler (name self) ≫= (λ h, h return_value) with
  | Ok v =>
      (Ok (),
       mk (request_id self) (name self) (entrypoint self)
          (request_body self) (status self) v (error self) (pid self))
  | Err e => (Err e, self)
  end.

Definition get_return_value : method pyval := λ self,
  (decoders_get_handler (name self)
     ≫= (λ h, h (RequestTask.return_value self)),
   self).
End WithHandlers.

(** The diagnostic that [encode] prints before it re-raises. *)
Definition encode_diagnostic (self : t) : list fragment :=
  [Lit ("Error encoding." +:+ newline);
   Fmt (PStr (request_id self)); Lit newline;
   Fmt (PStr (name self)); Lit newline;
   Fmt (request_body self); Lit newline;
   Fmt (return_value self); Lit newline].

Definition encode (self : t) : prog RequestTaskPayload.t :=
  try_except
    (lift (request_body ← json_dumps (request_body self);
           return_value ← json_dumps (return_value self);
           error ← json_dumps (error self);
           Ok (RequestTaskPayload.mk
                 (request_id self) (name self) (entrypoint self)
                 request_body (RequestStatus_value (status self))
                 return_value error (pid self))))
    "TypeError"
    (λ e, perform (Print (encode_diagnostic self)) ;; Raise e).

Definition decode (payload : RequestTaskPayload.t) : result t :=
  request_body ← json_loads (RequestTaskPayload.request_body payload);
  status ← RequestStatus_of_value (RequestTaskPayload.status payload);
  return_value ← json_loads (RequestTaskPayload.return_value payload);
  error ← json_loads (RequestTaskPayload.error payload);
  Ok (mk (RequestTaskPayload.request_id payload)
         (RequestTaskPayload.name payload)
         (RequestTaskPayload.entrypoint payload)
         request_body status return_value error
         (RequestTaskPayload.pid payload)).

Definition from_row (row : Row) : result t :=
  payload_of_row row ≫= decode.

Definition to_row (self : t) : prog Row :=
  payload ← encode self;
  lift (row_of_payload payload).
End RequestTask.

(** ** The world the store lives in *)

(** A SQLite database file: its [rest_tasks] table, keyed by the primary
    key [request_id], or [None] while the table has not been created. *)
Record Database : Type := { rest_tasks : option (gmap string Row) }.

(** The database files that exist, the one [_DB_PATH] names (a file that
    was removed while a connection was open stays among [files] without a
    name, as on a POSIX file system), the module's global [_DB], the lock
    files that are held, each under the path it was opened by, and the
    two facts about the platform that
    [create_table] asks for: whether it is WSL, and the message of the
    [OperationalError] that enabling WAL raises there, if it raises. *)
Record World : Type := mkWorld {
  files : list Database;
  db_file : option nat;
  _DB : option SQLiteConn;
  held_locks : list string;
  on_wsl : bool;
  journal_mode_error : option string;
}.

(** [os.path.expanduser('~/.sky/api_server/tasks.db')], with [~] left to
    stand for the home directory. *)
Definition _DB_PATH : string := "~/.sky/api_server/tasks.db".

Definition is_slash (c : ascii) : bool := (N_of_ascii c =? 47)%N.

Fixpoint has_slash (s : string) : bool :=
  match s with
  | EmptyString => false
  | String c s' => is_slash c || has_slash s'
  end.

Fixpoint upto_last_slash (s : string) : string :=
  match s with
  | EmptyString => ""
  | String c s' => if has_slash s then String c (upto_last_slash s') else ""
  end.

Fixpoint rstrip_slash (s : string) : string :=
  match s with
  | EmptyString => ""
  | String c s' =>
      match rstrip_slash s' with
      | EmptyString => if is_slash c then "" else String c ""
      | r => String c r
      end
  end.

(** [os.path.dirname] of [posixpath]. *)
Definition dirname (p : string) : string :=
  let head := upto_last_slash p in
  match rstrip_slash head with
  | EmptyString => head
  | stripped => stripped
  end.

(** [os.path.join] of [posixpath], for two components. *)
Definition path_join (a b : string) : string :=
  match b with
  | String c _ =>
      if is_slash c then b
      else match a with
           | EmptyString => b
           | _ => if has_slash (String.substring (String.length a - 1) 1 a)
                  then a +:+ b else a +:+ "/" +:+ b
           end
  | EmptyString =>
      match a with
      | EmptyString => b
      | _ => if has_slash (String.substring (String.length a - 1) 1 a)
             then a else a +:+ "/"
      end
  end.

(** *** Lock files

    [filelock.FileLock] opens the lock file before it locks it, and the
    operating system refuses some paths.  The lock files of this module
    lie directly in the directory of the database.  A path with a NUL
    character is refused by Python itself; a file name of more than 255
    bytes, in UTF-8, by the file system.  A request id with a slash gives
    a path through further directories: what becomes of it depends on
    directories that this model does not keep, and it is refused here as
    a path through a directory that does not exist. *)

Fixpoint has_nul (s : string) : bool :=
  match s with
  | EmptyString => false
  | String c s' => (N_of_ascii c =? 0)%N || has_nul s'
  end.

(** The length of the UTF-8 encoding of a string of code points below
    256. *)
Fixpoint utf8_length (s : string) : N :=
  match s with
  | EmptyString => 0
  | String c s' => ((if (N_of_ascii c <? 128)%N then 1 else 2)
                    + utf8_length s')%N
  end.

Definition NAME_MAX : N := 255.

Definition OSError (msg : string) : pyobject := PyObject "OSError" msg.
Definition FileNotFoundError (msg : string) : pyobject :=
  PyObject "FileNotFoundError" msg.

(** What opening a lock file raises, if it raises. *)
Definition lock_path_error (path : string) : option pyobject :=
  if has_nul path then Some (ValueError "embedded null byte")
  else
    match strip_prefix (dirname _DB_PATH +:+ "/") path with
    | Some name =>
        if has_slash name
        then Some (FileNotFoundError "[Errno 2] No such file or directory")
        else if (NAME_MAX <? utf8_length name)%N
        then Some (OSError "[Errno 36] File name too long")
        else match name with
             | EmptyString =>
                 Some (PyObject "IsADirectoryError"
                                "[Errno 21] Is a directory")
             | _ => None
             end
    | None => Some (FileNotFoundError "[Errno 2] No such file or directory")
    end.

(** *** Integers in SQLite

    An INTEGER column holds 64 bits; [sqlite3] raises [OverflowError] when
    a Python int outside that range is bound to a parameter. *)
Definition sqlite_integer (z : Z) : bool :=
  (-9223372036854775808 <=? z) && (z <=? 9223372036854775807).

Definition bindable (v : sqlval) : bool :=
  match v with
  | SqlInt z => sqlite_integer z
  | _ => true
  end.

Definition set_files (fs : list Database) (w : World) : World :=
  mkWorld fs (db_file w) (_DB w) (held_locks w) (on_wsl w)
          (journal_mode_error w).
Definition set_db_file (f : option nat) (w : World) : World :=
  mkWorld (files w) f (_DB w) (held_locks w) (on_wsl w)
          (journal_mode_error w).
Definition set_DB (c : option SQLiteConn) (w : World) : World :=
  mkWorld (files w) (db_file w) c (held_locks w) (on_wsl w)
          (journal_mode_error w).
Definition set_held_locks (l : list string) (w : World) : World :=
  mkWorld (files w) (db_file w) (_DB w) l (on_wsl w)
          (journal_mode_error w).

(** One statement on an open database. *)
Definition execute (db : Database) (stmt : statement)
  : result (reply (Execute {| conn := 0 |} stmt)) * Database :=
  match stmt with
  | PragmaJournalModeWAL => (Ok (), db)
  | CreateTableIfNotExists =>
      match rest_tasks db with
      | Some _ => (Ok (), db)
      | None => (Ok (), {| rest_tasks := Some ∅ |})
      end
  | SelectByRequestId request_id =>
      match rest_tasks db with
      | Some table => (Ok (table !! request_id), db)
      | None => (Err (OperationalError "no such table: rest_tasks"), db)
      end
  | InsertOrReplace row =>
      match rest_tasks db with
      | Some table =>
          if (length row =? 8)%nat then
            if forallb bindable row then
              match row with
              | SqlText request_id :: _ =>
                  (Ok (),
                   {| rest_tasks := Some (<[request_id := row]> table) |})
              | _ => (Err (PyObject "IntegrityError" "datatype mismatch"), db)
              end
            else (Err (PyObject "OverflowError"
                         "Python int too large to convert to SQLite INTEGER"),
                  db)
          else (Err (OperationalError
                       "table rest_tasks has 8 columns but a different number of values were supplied"),
                db)
      | None => (Err (OperationalError "no such table: rest_tasks"), db)
      end
  end.

(** The effect of one action, [None] when the action cannot proceed: a
    lock that is held makes the caller wait.  A lock whose file cannot be
    opened raises instead. *)
Definition exec (a : action) (w : World)
  : option (result (reply a) * World) :=
  match a with
  | GetDB => Some (Ok (_DB w), w)
  | SetDB c => Some (Ok (), set_DB (Some c) w)
  | IsWsl => Some (Ok (on_wsl w), w)
  | Connect path =>
      if String.eqb path _DB_PATH then
        match db_file w with
        | Some i => Some (Ok {| conn := i |}, w)
        | None =>
            let i := length (files w) in
            Some (Ok {| conn := i |},
                  set_db_file (Some i)
                    (set_files (files w ++ [{| rest_tasks := None |}]) w))
        end
      else Some (Err (OperationalError "unable to open database file"), w)
  | Execute c stmt =>
      match files w !! conn c with
      | Some db =>
          match stmt with
          | PragmaJournalModeWAL =>
              match journal_mode_error w with
              | Some msg => Some (Err (OperationalError msg), w)
              | None => Some (Ok (), w)
              end
          | stmt' =>
              let '(r, db') := execute db stmt' in
              Some (r, set_files (<[conn c := db']> (files w)) w)
          end
      | None =>
          Some (Err (OperationalError "unable to open database file"), w)
      end
  | RemoveFileIfExists path =>
      (* Only the database file goes.  The side files that SQLite keeps
         beside a database in WAL mode while it is open are not kept in
         this model: where the removed file is still open elsewhere they
         stay behind, and a later connection fails on them; such a world
         is one whose [journal_mode_error] is that failure. *)
      if String.eqb path _DB_PATH then Some (Ok (), set_db_file None w)
      else Some (Ok (), w)
  | LockAcquire path =>
      if bool_decide (path ∈ held_locks w) then None
      else match lock_path_error path with
           | Some e => Some (Err e, w)
           | None => Some (Ok (), set_held_locks (path :: held_locks w) w)
           end
  | LockRelease path =>
      Some (Ok (),
            set_held_locks (filter (λ p, p ≠ path) (held_locks w)) w)
  | Print _ => Some (Ok (), w)
  end.

(** How a computation ends when it runs alone: it returns, it raises, or
    it waits for a lock that nobody will release. *)
Inductive outcome (A : Type) : Type :=
| Returned (a : A)
| Raised (e : pyobject)
| Blocked.
Arguments Returned {A} a.
Arguments Raised {A} e.
Arguments Blocked {A}.

(** Run a computation to its end: the outcome, the world it leaves, and
    the actions it performed, in order. *)
Fixpoint run {A : Type} (p : prog A) (w : World)
  : outcome A * World * list action :=
  match p with
  | Ret a => (Returned a, w, [])
  | Raise e => (Raised e, w, [])
  | Act a k =>
      match exec a w with
      | Some (r, w') =>
          let '(o, w'', trace) := run (k r) w' in (o, w'', a :: trace)
      | None => (Blocked, w, [])
      end
  end.

(** One action of a computation that shares the world with others. *)
Definition step {A : Type} (p : prog A) (w : World)
  : option (prog A * World) :=
  match p with
  | Act a k =>
      match exec a w with
      | Some (r, w') => Some (k r, w')
      | None => None
      end
  | _ => None
  end.

(** Callers that run concurrently, interleaved by a schedule: each entry
    lets the caller with that number perform its next action; a caller
    that has finished or is waiting for a lock does not move. *)
Fixpoint interleave {A : Type} (schedule : list nat) (pool : list (prog A))
    (w : World) : list (prog A) * World :=
  match schedule with
  | [] => (pool, w)
  | i :: schedule' =>
      match pool !! i ≫= (λ p, step p w) with
      | Some (p', w') => interleave schedule' (<[i := p']> pool) w'
      | None => interleave schedule' pool w
      end
  end.

(** ** The store *)

(** [needle in haystack] for strings. *)
Fixpoint is_substring (needle haystack : string) : bool :=
  if String.prefix needle haystack then true
  else match haystack with
       | EmptyString => false
       | String _ rest => is_substring needle rest
       end.

(** Modelled from the spec: [common_utils.is_wsl] is not among the
    sources; it reports whether the platform is WSL, where WAL is left
    disabled. *)
Definition is_wsl : prog bool := perform IsWsl.

Definition create_table (c : SQLiteConn) : prog unit :=
  wsl ← is_wsl;
  (if negb wsl then
     try_except (perform (Execute c PragmaJournalModeWAL))
       "OperationalError"
       (λ e, if negb (is_substring "database is locked" (str_of e))
             then Raise e
             else Ret ())
   else Ret ()) ;;
  perform (Execute c CreateTableIfNotExists).

(** Modelled from the spec: the constructor of [db_utils.SQLiteConn], which
    is not among the sources: it opens the database file and has the
    schema created on it ("the first operation on the store triggers schema
    creation exactly once per process"). *)
Definition SQLiteConn_new (db_path : string)
    (create_table : SQLiteConn → prog unit) : prog SQLiteConn :=
  c ← perform (Connect db_path);
  create_table c ;;
  Ret c.

(** The decorator [init_db], applied to the body of a function. *)
Definition init_db {A : Type} (func : prog A) : prog A :=
  db ← perform GetDB;
  match db with
  | None => c ← SQLiteConn_new _DB_PATH create_table; perform (SetDB c)
  | Some _ => Ret ()
  end ;;
  func.

(** Modelled from the spec: [common_utils.remove_file_if_exists] is not
    among the sources; it is what lets [reset] "delete the entire backing
    file". *)
Definition remove_file_if_exists (path : string) : prog unit :=
  perform (RemoveFileIfExists path).

Definition reset_db : prog unit :=
  remove_file_if_exists _DB_PATH.

Definition request_lock_path (request_id : string) : string :=
  path_join (dirname _DB_PATH) ("." +:+ request_id +:+ ".lock").

(** [with filelock.FileLock(path): body]. *)
Definition with_FileLock {A : Type} (path : string) (body : prog A)
  : prog A :=
  perform (LockAcquire path) ;;
  try_finally body (perform (LockRelease path)).

(** [assert _DB is not None] is the [None] branch.  The single statement
    inside [with _DB.conn:] either takes effect or raises and changes
    nothing, so the transaction around it is not represented. *)
Definition _get_rest_task_no_lock (request_id : string)
  : prog (option RequestTask.t) :=
  db ← perform GetDB;
  match db with
  | None => Raise (PyObject "AssertionError" "")
  | Some c =>
      row ← perform (Execute c (SelectByRequestId request_id));
      match row with
      | None => Ret None
      | Some row => t ← lift (RequestTask.from_row row); Ret (Some t)
      end
  end.

Definition get_request (request_id : string)
  : prog (option RequestTask.t) :=
  init_db (with_FileLock (request_lock_path request_id)
                         (_get_rest_task_no_lock request_id)).

Definition _dump_request_no_lock (request_task : RequestTask.t)
  : prog unit :=
  row ← RequestTask.to_row request_task;
  db ← perform GetDB;
  match db with
  | None => Raise (PyObject "AssertionError" "")
  | Some c => perform (Execute c (InsertOrReplace row))
  end.

Definition dump_reqest (request : RequestTask.t) : prog unit :=
  init_db (with_FileLock (request_lock_path (RequestTask.request_id request))
                         (_dump_request_no_lock request)).

(** The block of a [with update_rest_task(...) as rest_task:] statement,
    taken to act on what it is handed only: it assigns to fields of the
    record, or finds [None], and may raise. *)
Record with_block : Type := {
  on_task : RequestTask.t → result RequestTask.t;
  on_none : result unit;
}.

(** The [yield] of a context manager: the block runs on the yielded
    object; what it raises is raised at the [yield]. *)
Definition yield_to (block : with_block) (v : option RequestTask.t)
  : prog (option RequestTask.t) :=
  match v with
  | Some t => t' ← lift (on_task block t); Ret (Some t')
  | None => lift (on_none block) ;; Ret None
  end.

Definition update_rest_task (request_id : string) (block : with_block)
  : prog unit :=
  init_db (rest_task ← _get_rest_task_no_lock request_id;
           rest_task ← yield_to block rest_task;
           match rest_task with
           | Some t => _dump_request_no_lock t
           | None => Ret ()
           end).

(** The rows of the database file with a given number. *)
Definition rows_at (w : World) (i : nat) : gmap string Row :=
  match files w !! i with
  | Some db => default ∅ (rest_tasks db)
  | None => ∅
  end.

(** The file the process would read: the one its connection holds open,
    or, before the first access, the one at [_DB_PATH]. *)
Definition open_file (w : World) : option nat :=
  match _DB w with
  | Some c => Some (conn c)
  | None => db_file w
  end.

(** The rows the process would find: those of the file it would read;
    none where there is no file or no table. *)
Definition visible_rows (w : World) : gmap string Row :=
  match open_file w with
  | Some i => rows_at w i
  | None => ∅
  end.


(** ** Predicates the statements below are written with *)

(** The character that follows an encoded value inside a document: the
    end of the text, a blank, or one of [,], []] and [}]. *)
Definition value_end (s : string) : bool :=
  match s with
  | EmptyString => true
  | String c _ =>
      let n := N_of_ascii c in
      (is_ws c || (n =? 44) || (n =? 93) || (n =? 125))%N
  end.

(** The first character of an encoded value is neither a blank nor a
    closing bracket. *)
Definition opens_value (t : string) : Prop :=
  match t with
  | String c _ =>
      is_ws c = false ∧ (N_of_ascii c =? 93)%N = false
      ∧ (N_of_ascii c =? 125)%N = false
  | EmptyString => False
  end.

(** Fuel that suffices for the decoder to read a value back. *)
Fixpoint scan_fuel (v : pyval) : nat :=
  match v with
  | PList l | PTuple l => S (list_sum (map (λ x, S (scan_fuel x)) l))
  | PDict d => S (list_sum (map (λ kv : pyval * pyval, S (scan_fuel kv.2)) d))
  | _ => 1
  end.

(** What it means for the decoder to read one encoded value back. *)
Definition reads_back (v : pyval) : Prop :=
  ∀ t fuel depth rest,
    native_within depth v = true → dumps_value depth v = Ok t →
    (scan_fuel v ≤ fuel)%nat → value_end rest = true →
    scan_once fuel depth (t +:+ rest) = Some (v, rest).

(** The fields of a record that go through [json.dumps]. *)
Definition json_fields (r : RequestTask.t) : list pyval :=
  [RequestTask.request_body r; RequestTask.return_value r;
   RequestTask.error r].

Definition is_lock_acquire (a : action) : bool :=
  match a with
  | LockAcquire _ => true
  | _ => false
  end.

Definition is_insert (a : action) : bool :=
  match a with
  | Execute _ (InsertOrReplace _) => true
  | _ => false
  end.

Definition is_create_table (a : action) : bool :=
  match a with
  | Execute _ CreateTableIfNotExists => true
  | _ => false
  end.

Definition no_insert (trace : list action) : bool :=
  forallb (λ a, negb (is_insert a)) trace.

Definition no_lock_acquire (trace : list action) : bool :=
  forallb (λ a, negb (is_lock_acquire a)) trace.

(** The world after [sqlite3.connect(_DB_PATH)], with the number of the
    file the connection is to. *)
Definition connected (w : World) : nat * World :=
  match db_file w with
  | Some i => (i, w)
  | None =>
      (length (files w),
       set_db_file (Some (length (files w)))
         (set_files (files w ++ [{| rest_tasks := None |}]) w))
  end.

(** The world after [CREATE TABLE IF NOT EXISTS] on file [i]. *)
Definition with_table (i : nat) (w : World) : World :=
  match files w !! i with
  | Some db =>
      set_files (<[i := {| rest_tasks := Some (default ∅ (rest_tasks db)) |}]>
                   (files w)) w
  | None => w
  end.

(** The world after the first access of a process has initialised
    [_DB]. *)
Definition initialised (w : World) : World :=
  let '(i, w0) := connected w in
  set_DB (Some {| conn := i |}) (with_table i w0).

(** The world in which the body of a function decorated with [init_db]
    starts. *)
Definition ready (w : World) : World :=
  match _DB w with
  | Some _ => w
  | None => initialised w
  end.

(** A computation in which no lock is ever acquired, whatever the world
    answers. *)
Inductive never_locks {A : Type} : prog A → Prop :=
| never_locks_Ret (a : A) : never_locks (Ret a)
| never_locks_Raise (e : pyobject) : never_locks (Raise e)
| never_locks_Act (a : action) (k : result (reply a) → prog A) :
    is_lock_acquire a = false →
    (∀ r, never_locks (k r)) →
    never_locks (Act a k).

(** Enabling WAL does not stop [create_table]: the platform is WSL, or
    the pragma succeeds, or it fails because the database is locked. *)
Definition journal_mode_ok (w : World) : bool :=
  on_wsl w
  || match journal_mode_error w with
     | None => true
     | Some msg => is_substring "database is locked" msg
     end.

(** The state a process leaves the store in: the connection in [_DB], if
    there is one, is to a file that has the table, and [_DB_PATH], if it
    names a file, names one that exists. *)
Definition store_ok (w : World) : Prop :=
  (∀ c, _DB w = Some c →
        ∃ table, files w !! conn c = Some {| rest_tasks := Some table |})
  ∧ (∀ i, db_file w = Some i → is_Some (files w !! i))
  ∧ (_DB w = None → journal_mode_ok w = true).

(** The errors of [json.dumps]: a [TypeError] for a value or key that has
    no JSON form, the [ValueError] of an integer with too many digits, and
    a [RecursionError]. *)
Definition encoding_error (e : pyobject) : Prop :=
  type_name e = "TypeError" ∨ type_name e = "ValueError"
  ∨ type_name e = "RecursionError".

(** The lock file at a path can be taken at once: its file can be
    opened, nobody holds it, and the locks that are held are held under
    paths that can be opened, so that none of them is another path to the
    same file. *)
Definition lock_free (w : World) (path : string) : Prop :=
  lock_path_error path = None
  ∧ (path ∉ held_locks w)
  ∧ Forall (λ p, lock_path_error p = None) (held_locks w).

(** The pid of a record fits an INTEGER column. *)
Definition pid_fits (r : RequestTask.t) : bool :=
  match RequestTask.pid r with
  | Some z => sqlite_integer z
  | None => true
  end.

(** ** Example data *)

(** A registry with one name, ["echo"], whose transforms are the
    identity, and an error codec that writes an object as the JSON text of
    the pair of its class name and its message. *)
Definition example_pickle (o : pyobject) : string :=
  match json_dumps (PList [PStr (type_name o); PStr (str_of o)]) with
  | Ok t => t
  | Err _ => ""
  end.

Definition example_unpickle (v : pyval) : result pyval :=
  match v with
  | PStr s =>
      v' ← json_loads s;
      match v' with
      | PList [PStr cls; PStr msg] => Ok (PObj (PyObject cls msg))
      | _ => Err (PyObject "UnpicklingError" "invalid load key")
      end
  | _ => Err (PyObject "AttributeError"
                       "object has no attribute 'encode'")
  end.

Definition example_get_handler (name : string)
  : result (pyval → result pyval) :=
  if String.eqb name "echo" then Ok (λ v, Ok v)
  else Err (PyObject "AttributeError" name).

Definition example_handlers : Handlers := {|
  _pickle_and_encode := example_pickle;
  _decode_and_unpickle := example_unpickle;
  encoders_get_handler := example_get_handler;
  decoders_get_handler := example_get_handler;
|}.

Definition example_task : RequestTask.t :=
  RequestTask.mk "r1" "echo" "sky.launch" (PDict [(PStr "x", PInt 1)])
                 PENDING PNone PNone None.

(** A [ValueError("bad input")]. *)
Definition example_error : pyobject := ValueError "bad input".

(** A record whose [error] is a dict without entries. *)
Definition task_with_empty_error : RequestTask.t :=
  RequestTask.mk "r1" "echo" "sky.launch" (PDict [(PStr "x", PInt 1)])
                 FAILED PNone (PDict []) None.

(** A record whose [error] holds a [bytes] object. *)
Definition task_with_bytes_error : RequestTask.t :=
  RequestTask.mk "r1" "echo" "sky.launch" (PDict [(PStr "x", PInt 1)])
                 FAILED PNone
                 (PDict [(PStr "object", PObj (PyObject "bytes" "b'\x80'"))])
                 None.

(** A machine on which the store has never been used. *)
Definition fresh_world : World := mkWorld [] None None [] false None.

(** The world after [example_task] was stored by a first call. *)
Definition world_with_task : World :=
  (run (dump_reqest example_task) fresh_world).1.2.

(** Two blocks: one marks the task as running, the other records the pid
    of the worker. *)
Definition mark_running : with_block := {|
  on_task t :=
    Ok (RequestTask.mk (RequestTask.request_id t) (RequestTask.name t)
          (RequestTask.entrypoint t) (RequestTask.request_body t) RUNNING
          (RequestTask.return_value t) (RequestTask.error t)
          (RequestTask.pid t));
  on_none := Ok ();
|}.

Definition record_pid : with_block := {|
  on_task t :=
    Ok (RequestTask.mk (RequestTask.request_id t) (RequestTask.name t)
          (RequestTask.entrypoint t) (RequestTask.request_body t)
          (RequestTask.status t) (RequestTask.return_value t)
          (RequestTask.error t) (Some 123));
  on_none := Ok ();
|}.

(** The two updates as concurrent callers, and a schedule in which the
    first caller reads the record, the second caller then runs from start
    to end, and the first caller writes last. *)
Definition concurrent_updates : list (prog unit) :=
  [update_rest_task "r1" mark_running; update_rest_task "r1" record_pid].

Definition overlapping_schedule : list nat :=
  [0; 0; 0; 1; 1; 1; 1; 1; 0; 0]%nat.

(** What [get_request] returns in a world, when it returns. *)
Definition stored_task (w : World) (request_id : string)
  : outcome (option RequestTask.t) :=
  (run (get_request request_id) w).1.1.

(** A record whose return value is a tuple, and the record with the list
    of the same values in its place. *)
Definition task_with_tuple : RequestTask.t :=
  RequestTask.mk "r1" "echo" "sky.launch" (PDict [(PStr "x", PInt 1)])
                 SUCCEEDED (PTuple [PInt 1; PStr "a"]) PNone None.

Definition task_with_list : RequestTask.t :=
  RequestTask.mk "r1" "echo" "sky.launch" (PDict [(PStr "x", PInt 1)])
                 SUCCEEDED (PList [PInt 1; PStr "a"]) PNone None.


(** What [encode] prints before it raises: its diagnostic for a
    [TypeError], nothing for another error. *)
Definition encode_printed (r : RequestTask.t) (e : pyobject) : list action :=
  if String.eqb (type_name e) "TypeError"
  then [Print (RequestTask.encode_diagnostic r)]
  else [].

(** ** Listing *)

(** The loop of [get_request_tasks]: every fetched row is decoded, in
    order; the first row that does not decode raises. *)
Fixpoint from_rows (rows : list Row) : result (list RequestTask.t) :=
  match rows with
  | [] => Ok []
  | row :: rows' =>
      rest_task ← RequestTask.from_row row;
      rest_tasks ← from_rows rows';
      Ok (rest_task :: rest_tasks)
  end.

(** [get_request_tasks].  The statement [SELECT * FROM rest_tasks] with its
    [fetchall] is the parameter [fetchall]: what it answers with on a
    connection, [None] or the list of the rows. *)
Definition get_request_tasks
    (fetchall : SQLiteConn → prog (option (list Row)))
  : prog (list RequestTask.t) :=
  init_db (db ← perform GetDB;
           match db with
           | None => Raise (PyObject "AssertionError" "")
           | Some c =>
               rows ← fetchall c;
               match rows with
               | None => Ret []
               | Some rows => lift (from_rows rows)
               end
           end).

(** ** More predicates on worlds and traces *)

(** Statements that read or write rows. *)
Definition touches_rows (a : action) : bool :=
  match a with
  | Execute _ (SelectByRequestId _) => true
  | Execute _ (InsertOrReplace _) => true
  | _ => false
  end.

Definition is_pragma (a : action) : bool :=
  match a with
  | Execute _ PragmaJournalModeWAL => true
  | _ => false
  end.

(** The connection of the process, if it has one, is to the file that
    [_DB_PATH] names: no reset has come between. *)
Definition connection_current (w : World) : Prop :=
  ∀ c, _DB w = Some c → db_file w = Some (conn c).

(** A process that starts on the files another process leaves behind:
    [_DB] is unset again. *)
Definition new_process (w : World) : World := set_DB None w.


(** A block that raises. *)
Definition failing_block : with_block := {|
  on_task t := Err (ValueError "boom");
  on_none := Err (ValueError "boom");
|}.

(** A world in which somebody else holds the lock of request [r1]. *)
Definition world_with_lock_held : World :=
  set_held_locks [request_lock_path "r1"] world_with_task.

(** A world whose table holds, under [r9], a row with a status text that
    is no status. *)
Definition corrupt_row : Row :=
  [SqlText "r9"; SqlText "echo"; SqlText "sky.launch"; SqlText "{}";
   SqlText "pending"; SqlText "null"; SqlText "null"; SqlNull].

Definition world_with_corrupt_row : World :=
  set_files [{| rest_tasks := Some {[ "r9" := corrupt_row ]} |}]
            world_with_task.

(** A machine that is not WSL on which enabling WAL fails for a reason
    other than a locked database. *)
Definition world_with_failing_pragma : World :=
  mkWorld [] None None [] false (Some "disk I/O error").

(** A computation that never performs an action of a given kind, whatever
    the world answers. *)
Inductive never {A : Type} (P : action → bool) : prog A → Prop :=
| never_Ret (a : A) : never P (Ret a)
| never_Raise (e : pyobject) : never P (Raise e)
| never_Act (a : action) (k : result (reply a) → prog A) :
    P a = false →
    (∀ r, never P (k r)) →
    never P (Act a k).

(** A trace without actions of a given kind. *)
Definition trace_without (P : action → bool) (trace : list action) : bool :=
  forallb (λ a, negb (P a)) trace.

(** The initialisation alone: [init_db] around a function that does
    nothing. *)
Definition init_only : prog unit := init_db (Ret ()).

(** [example_task] once it runs. *)
Definition running_task : RequestTask.t :=
  RequestTask.mk "r1" "echo" "sky.launch" (PDict [(PStr "x", PInt 1)])
                 RUNNING PNone PNone None.

(** A cursor that answers with given rows. *)
Definition fetch_rows (rows : list Row)
  : SQLiteConn → prog (option (list Row)) :=
  λ _, Ret (Some rows).

(** The row under which [example_task] is stored. *)
Definition example_row : Row :=
  default [] (visible_rows world_with_task !! "r1").


(** A row with its eight columns in their types, whose request body is
    read, and whose status text is the value of no status: decoding it
    gets as far as [RequestStatus(...)], which raises [ValueError]. *)
Definition bad_status_row (row : Row) : Prop :=
  ∃ p body,
    payload_of_row row = Ok p
    ∧ json_loads (RequestTaskPayload.request_body p) = Ok body
    ∧ ∀ s, RequestTaskPayload.status p ≠ RequestStatus_value s.

(** * Properties *)

#[local] Arguments String.append : simpl nomatch.
#[local] Arguments request_lock_path : simpl never.
#[local] Arguments is_substring : simpl never.


(** *** Strings *)

Lemma string_app_assoc (a b c : string) : (a +:+ b) +:+ c = a +:+ (b +:+ c).
Proof. induction a as [|x a IH]; simpl; [done | by rewrite IH]. Qed.

Lemma string_app_length (a b : string) :
  String.length (a +:+ b) = (String.length a + String.length b)%nat.
Proof. induction a as [|x a IH]; simpl; [done | by rewrite IH]. Qed.

(** *** Integers *)

Lemma nzhead_not_D0 d d' : nzhead d ≠ D0 d'.
Proof. induction d; simpl; congruence. Qed.

Lemma to_uint_no_leading_zero p d : Pos.to_uint p ≠ D0 d.
Proof.
  intros E.
  assert (Hn : unorm (Pos.to_uint p) = Pos.to_uint p).
  { rewrite <- (DecimalPos.Unsigned.to_of (Pos.to_uint p)).
    by rewrite DecimalPos.Unsigned.of_to. }
  rewrite E in Hn. change (unorm (D0 d)) with (unorm d) in Hn.
  unfold unorm in Hn. destruct (nzhead d) eqn:Hd;
    try (by inversion Hn);
    try (by apply (nzhead_not_D0 d u)).
  inversion Hn; subst d.
  by apply (DecimalPos.Unsigned.to_uint_nonzero p).
Qed.

Lemma scan_digits_text d rest :
  match rest with
  | String c _ => digit_of c = None
  | EmptyString => True
  end →
  scan_digits (digits_text d +:+ rest) = (d, rest).
Proof.
  intros H. induction d; simpl; try (by rewrite IHd).
  destruct rest as [|c r]; [done|]. simpl. by rewrite H.
Qed.

Lemma value_end_not_digit rest :
  value_end rest = true →
  match rest with
  | String c _ => digit_of c = None
  | EmptyString => True
  end.
Proof.
  destruct rest as [|c r]; [done|]. unfold value_end, digit_of, is_ws.
  destruct c as [[] [] [] [] [] [] [] []]; by vm_compute.
Qed.

Lemma value_end_not_float rest :
  value_end rest = true →
  match rest with
  | String c _ =>
      ((N_of_ascii c =? 46) || (N_of_ascii c =? 101) || (N_of_ascii c =? 69))%N
  | EmptyString => false
  end = false.
Proof.
  destruct rest as [|c r]; [done|]. unfold value_end, is_ws.
  destruct c as [[] [] [] [] [] [] [] []]; by vm_compute.
Qed.

Lemma scan_number_uint (neg : bool) d rest :
  d ≠ Nil → (∀ d', d = D0 d' → d' = Nil) →
  within_str_digits (Decimal.nb_digits d) = true →
  value_end rest = true →
  scan_number ((if neg then String "-"%char (digits_text d) else digits_text d)
               +:+ rest)
  = Some (PInt (Z.of_int (if neg then Decimal.Neg d else Decimal.Pos d)), rest).
Proof.
  intros Hnil Hz Hdig Hend. unfold scan_number.
  assert (Hs : ∀ s, s = digits_text d +:+ rest →
     (let '(ds, r) := scan_digits s in
      let float_follows :=
        match r with
        | String c _ =>
          let n := N_of_ascii c in ((n =? 46) || (n =? 101) || (n =? 69))%N
        | EmptyString => false
        end in
      match ds with
      | Nil => None
      | _ =>
        match ds with
        | D0 (D0 _ | D1 _ | D2 _ | D3 _ | D4 _ | D5 _ | D6 _ | D7 _ | D8 _
             | D9 _) => None
        | _ =>
          if float_follows then None
          else if within_str_digits (Decimal.nb_digits ds) then
            Some (PInt (Z.of_int (if neg then Decimal.Neg ds
                                  else Decimal.Pos ds)), r)
          else None
        end
      end) = Some (PInt (Z.of_int (if neg then Decimal.Neg d else Decimal.Pos d)), rest)).
  { intros s ->. rewrite scan_digits_text by by apply value_end_not_digit.
    cbv zeta. rewrite (value_end_not_float _ Hend), Hdig.
    destruct d as [|d'|?|?|?|?|?|?|?|?|?]; try done.
    by rewrite (Hz d' eq_refl). }
  destruct neg; simpl.
  - by apply Hs.
  - destruct (digits_text d +:+ rest) as [|c r] eqn:E.
    + rewrite <- E. by apply Hs.
    + assert ((N_of_ascii c =? 45)%N = false) as ->.
      { destruct d; simpl in E; try congruence; by inversion E. }
      rewrite <- E. by apply Hs.
Qed.

Lemma scan_number_int z rest :
  within_str_digits (int_digits z) = true →
  value_end rest = true →
  scan_number (int_text z +:+ rest) = Some (PInt z, rest).
Proof.
  intros Hdig Hend. rewrite <- (DecimalZ.of_to z) at 2.
  unfold int_text, int_digits in *.
  destruct z as [|p|p]; simpl Z.to_int in *; cbv iota in *.
  - apply (scan_number_uint false); [done | by inversion 1 | done | done].
  - apply (scan_number_uint false);
      [|intros d' E; by apply to_uint_no_leading_zero in E|done|done].
    apply DecimalPos.Unsigned.to_uint_nonnil.
  - apply (scan_number_uint true (Pos.to_uint p) rest);
      [|intros d' E; by apply to_uint_no_leading_zero in E|done|done].
    apply DecimalPos.Unsigned.to_uint_nonnil.
Qed.

(** *** Strings and their escapes *)

Lemma scanstring_escape_char c s :
  scanstring (escape_char c +:+ s)
  = match scanstring s with
    | Some (str, r') => Some (String c str, r')
    | None => None
    end.
Proof. destruct c as [[] [] [] [] [] [] [] []]; reflexivity. Qed.

Lemma scanstring_escape_text s rest :
  scanstring (escape_text s +:+ String dquote rest) = Some (s, rest).
Proof.
  induction s as [|c s IH]; [done|].
  simpl escape_text. rewrite string_app_assoc, scanstring_escape_char.
  by rewrite IH.
Qed.

Lemma scanstring_quote_text s rest :
  quote_text s +:+ rest = String dquote (escape_text s +:+ String dquote rest).
Proof. unfold quote_text. simpl. by rewrite string_app_assoc. Qed.

Lemma scan_once_quote_text fuel depth s rest :
  scan_once (S fuel) depth (quote_text s +:+ rest) = Some (PStr s, rest).
Proof.
  rewrite scanstring_quote_text. simpl.
  by rewrite scanstring_escape_text.
Qed.

Lemma int_text_head z :
  ∃ c r, int_text z = String c r
         ∧ (digit_of c ≠ None ∨ N_of_ascii c = 45%N).
Proof.
  unfold int_text. destruct z as [|p|p]; simpl Z.to_int; cbv iota.
  - exists "0"%char, "". split; [done | by left].
  - pose proof (DecimalPos.Unsigned.to_uint_nonnil p) as Hn.
    destruct (Pos.to_uint p); try done; simpl; eexists _, _;
      (split; [reflexivity | by left]).
  - eexists _, _. split; [reflexivity | by right].
Qed.

Lemma scan_once_number fuel depth c r :
  digit_of c ≠ None ∨ N_of_ascii c = 45%N →
  scan_once (S fuel) depth (String c r) = scan_number (String c r).
Proof.
  intros H.
  destruct c as [[] [] [] [] [] [] [] []]; try reflexivity;
    exfalso; vm_compute in H;
    (destruct H as [H|H]; [by apply H | discriminate H]).
Qed.

Lemma scan_once_int fuel depth z rest :
  within_str_digits (int_digits z) = true →
  value_end rest = true →
  scan_once (S fuel) depth (int_text z +:+ rest) = Some (PInt z, rest).
Proof.
  intros Hdig Hend. rewrite <- (scan_number_int z rest Hdig Hend).
  destruct (int_text_head z) as (c & r & -> & Hc).
  simpl. by apply scan_once_number.
Qed.

(** *** Values *)

Lemma pyval_nested_ind (P : pyval → Prop) :
  P PNone → (∀ b, P (PBool b)) → (∀ z, P (PInt z)) → (∀ s, P (PStr s)) →
  (∀ l, Forall P l → P (PList l)) →
  (∀ l, Forall P l → P (PTuple l)) →
  (∀ d, Forall (λ kv : pyval * pyval, P kv.2) d → P (PDict d)) →
  (∀ o, P (PObj o)) →
  ∀ v, P v.
Proof.
  intros HN HB HI HS HL HT HD HO. fix IH 1. intros [| b | z | s | l | l | d | o].
  - exact HN.
  - apply HB.
  - apply HI.
  - apply HS.
  - apply HL.
    exact ((fix go (l : list pyval) : Forall P l :=
              match l with
              | [] => List.Forall_nil P
              | x :: l' => List.Forall_cons P x l' (IH x) (go l')
              end) l).
  - apply HT.
    exact ((fix go (l : list pyval) : Forall P l :=
              match l with
              | [] => List.Forall_nil P
              | x :: l' => List.Forall_cons P x l' (IH x) (go l')
              end) l).
  - apply HD.
    exact ((fix go (d : list (pyval * pyval))
              : Forall (λ kv : pyval * pyval, P kv.2) d :=
              match d with
              | [] => List.Forall_nil _
              | kv :: d' => List.Forall_cons _ kv d' (IH kv.2) (go d')
              end) d).
  - apply HO.
Qed.

Lemma bind_Ok_inv {A B} (m : result A) (f : A → result B) (b : B) :
  m ≫= f = Ok b → ∃ a, m = Ok a ∧ f a = Ok b.
Proof. destruct m as [a|e]; [by exists a | done]. Qed.

Ltac bind_inv H :=
  let a := fresh "a" in
  let E := fresh "E" in
  apply bind_Ok_inv in H as (a & E & H).

Ltac ok_inv H :=
  match type of H with
  | Ok ?x = Ok ?y => assert (y = x) as -> by congruence; clear H
  end.

Lemma join_items_cons {A} (f : A → result string) x l :
  join_items f (x :: l)
  = t ← f x;
    match l with
    | [] => Ok t
    | _ :: _ => ts ← join_items f l; Ok (t +:+ ", " +:+ ts)
    end.
Proof. reflexivity. Qed.

Lemma opens_value_app t rest : opens_value t → opens_value (t +:+ rest).
Proof. by destruct t. Qed.

Lemma skip_ws_opens t : opens_value t → skip_ws t = t.
Proof. destruct t as [|c r]; [done|]. intros (H & _). simpl. by rewrite H. Qed.

Lemma int_repr_Ok z t :
  int_repr z = Ok t → within_str_digits (int_digits z) = true ∧ t = int_text z.
Proof.
  unfold int_repr. destruct (within_str_digits (int_digits z)); [|done].
  by intros [= <-].
Qed.

Lemma dumps_value_opens depth v t : dumps_value depth v = Ok t → opens_value t.
Proof.
  destruct v as [| [] | z | s | l | l | d | o]; simpl; intros H;
    try (by inversion H);
    try (destruct depth; [discriminate H|]; bind_inv H; by inversion H).
  apply int_repr_Ok in H as [_ ->].
  destruct (int_text_head z) as (c & r & -> & Hc).
  destruct c as [[] [] [] [] [] [] [] []]; try done;
    exfalso; vm_compute in Hc; destruct Hc; done.
Qed.

Lemma join_items_opens {A} (f : A → result string) l ts :
  (∀ x t, f x = Ok t → opens_value t) →
  l ≠ [] → join_items f l = Ok ts → opens_value ts.
Proof.
  intros Hf Hl H. destruct l as [|x l]; [done|].
  rewrite join_items_cons in H. bind_inv H. destruct l.
  - inversion H; subst. by eapply Hf.
  - bind_inv H. inversion H; subst. apply opens_value_app. by eapply Hf.
Qed.

Lemma scan_array_items l :
  Forall reads_back l →
  ∀ ts fuel depth rest,
    l ≠ [] → forallb (native_within depth) l = true →
    join_items (dumps_value depth) l = Ok ts →
    (list_sum (map (λ x, S (scan_fuel x)) l) ≤ fuel)%nat →
    scan_array fuel depth (ts +:+ String "]" rest) = Some (l, rest).
Proof.
  induction 1 as [|v l Hv Hl IH]; [done|].
  intros ts fuel depth rest _ Hnat Hts Hfuel.
  simpl in Hnat. apply andb_prop in Hnat as [Hnv Hnl].
  rewrite join_items_cons in Hts. simpl in Hfuel.
  bind_inv Hts. rename a into t.
  destruct fuel as [|fuel]; [lia|]. simpl scan_array.
  destruct l as [|v' l'].
  - ok_inv Hts.
    rewrite (Hv t fuel depth (String "]" rest));
      [|done|done|simpl in Hfuel; lia|done].
    done.
  - bind_inv Hts. rename a into ts'. ok_inv Hts.
    rewrite !string_app_assoc.
    rewrite (Hv t fuel depth); [|done|done|simpl in Hfuel |- *; lia|done].
    simpl.
    assert (Ho : opens_value (ts' +:+ String "]" rest)).
    { apply opens_value_app.
      eapply (join_items_opens (dumps_value depth) (v' :: l')); [|done|done].
      apply dumps_value_opens. }
    rewrite (skip_ws_opens _ Ho).
    rewrite (IH ts' fuel depth rest); [done|done|done|done|].
    simpl in Hfuel |- *. lia.
Qed.

Lemma scan_object_members d :
  Forall (λ kv : pyval * pyval, reads_back kv.2) d →
  ∀ ts fuel depth rest,
    d ≠ [] →
    forallb (λ kv : pyval * pyval,
               match kv.1 with
               | PStr _ => native_within depth kv.2
               | _ => false
               end) d = true →
    join_items (λ kv : pyval * pyval,
                  kt ← key_text kv.1;
                  t ← dumps_value depth kv.2;
                  Ok (quote_text kt +:+ ": " +:+ t)) d = Ok ts →
    (list_sum (map (λ kv : pyval * pyval, S (scan_fuel kv.2)) d) ≤ fuel)%nat →
    scan_object fuel depth (ts +:+ String "}" rest)
    = Some (map (λ kv : pyval * pyval, (key_str kv.1, kv.2)) d, rest).
Proof.
  induction 1 as [|[k v] d Hv Hd IH]; [done|].
  intros ts fuel depth rest _ Hnat Hts Hfuel.
  simpl in Hnat. apply andb_prop in Hnat as [Hnv Hnd].
  destruct k as [| | | k | | | |]; try discriminate Hnv.
  rewrite join_items_cons in Hts. simpl in Hfuel, Hv.
  bind_inv Hts. rename a into m. cbn [fst snd key_text] in E.
  bind_inv E. ok_inv E0.
  bind_inv E. rename a into t. ok_inv E.
  assert (Hot : opens_value t) by (by eapply dumps_value_opens).
  destruct fuel as [|fuel]; [lia|].
  assert (Hstep : ∀ tail,
    value_end tail = true →
    scan_object (S fuel) depth ((quote_text k +:+ ": " +:+ t) +:+ tail)
    = match skip_ws tail with
      | String c' r4 =>
          if (N_of_ascii c' =? 44)%N then
            match scan_object fuel depth (skip_ws r4) with
            | Some (ms, r5) => Some ((k, v) :: ms, r5)
            | None => None
            end
          else if (N_of_ascii c' =? 125)%N then Some ([(k, v)], r4)
          else None
      | EmptyString => None
      end).
  { intros tail Htail. rewrite string_app_assoc, scanstring_quote_text.
    simpl scan_object. rewrite scanstring_escape_text. simpl.
    rewrite ?string_app_assoc.
    rewrite (skip_ws_opens (t +:+ tail)) by (by apply opens_value_app).
    rewrite (Hv t fuel depth tail); [done|done|done|lia|done]. }
  destruct d as [|kv' d'].
  - ok_inv Hts. by rewrite Hstep.
  - bind_inv Hts. rename a into ts'. ok_inv Hts.
    rewrite string_app_assoc, Hstep by done. simpl.
    assert (Ho : opens_value (ts' +:+ String "}" rest)).
    { apply opens_value_app.
      eapply (join_items_opens _ (kv' :: d')); [|done|done].
      intros x tx Hx. do 2 bind_inv Hx. by inversion Hx. }
    rewrite (skip_ws_opens _ Ho).
    rewrite (IH ts' fuel depth rest); [done|done|done|done|].
    simpl in Hfuel |- *. lia.
Qed.

Lemma dict_set_fresh d k v :
  k ∉ map fst d → dict_set d k v = (d ++ [(k, v)])%list.
Proof.
  induction d as [|[k' v'] d IH]; [done|]. simpl. intros Hk.
  destruct (String.eqb_spec k k') as [->|Hne].
  - exfalso. apply Hk. by left.
  - rewrite IH; [done|]. intros Hin. apply Hk. by right.
Qed.

Lemma fold_dict_set_nodup ms acc :
  NoDup (map fst (acc ++ ms)%list) →
  fold_left (λ d kv, dict_set d kv.1 kv.2) ms acc = (acc ++ ms)%list.
Proof.
  revert acc. induction ms as [|[k v] ms IH]; intros acc Hnd; simpl.
  - by rewrite app_nil_r.
  - rewrite dict_set_fresh.
    + rewrite IH; rewrite <- app_assoc; done.
    + rewrite map_app in Hnd. simpl in Hnd.
      apply NoDup_app in Hnd as (_ & Hd & _).
      intros Hin. apply (Hd k Hin). by left.
Qed.

Lemma dict_of_pairs_native depth d :
  forallb (λ kv : pyval * pyval,
             match kv.1 with
             | PStr _ => native_within depth kv.2
             | _ => false
             end) d = true →
  NoDup (map (λ kv : pyval * pyval, key_str kv.1) d) →
  dict_of_pairs (map (λ kv : pyval * pyval, (key_str kv.1, kv.2)) d) = d.
Proof.
  intros Hk Hnd. unfold dict_of_pairs.
  rewrite (fold_dict_set_nodup _ []).
  - simpl. induction d as [|[k v] d IH]; [done|].
    simpl in Hk. apply andb_prop in Hk as [Hkv Hd].
    destruct k; try discriminate Hkv. simpl. f_equal. apply IH; [done|].
    by inversion Hnd.
  - simpl. by rewrite map_map.
Qed.

Lemma dumps_value_reads_back v : reads_back v.
Proof.
  induction v as [| b | z | s | l IH | l IH | d IH | o] using pyval_nested_ind;
    intros t fuel depth rest Hnat Ht Hfuel Hend; simpl in Ht;
    try discriminate Hnat;
    (destruct fuel as [|fuel]; [simpl in Hfuel; lia|]).
  - by ok_inv Ht.
  - destruct b; by ok_inv Ht.
  - apply int_repr_Ok in Ht as [Hdig ->]. by apply scan_once_int.
  - ok_inv Ht. apply scan_once_quote_text.
  - destruct depth as [|depth]; [discriminate Hnat|].
    bind_inv Ht. rename a into ts. ok_inv Ht.
    destruct l as [|v l].
    + by inversion E.
    + simpl String.append. rewrite string_app_assoc. simpl String.append.
      assert (Ho : opens_value (ts +:+ String "]" rest)).
      { apply opens_value_app.
        eapply (join_items_opens (dumps_value depth) (v :: l)); [|done|done].
        apply dumps_value_opens. }
      simpl. rewrite (skip_ws_opens _ Ho).
      destruct (ts +:+ String "]" rest) as [|c r] eqn:Etxt; [done|].
      destruct Ho as (_ & -> & _). rewrite <- Etxt.
      rewrite (scan_array_items (v :: l) IH ts fuel depth rest); try done.
      simpl in Hfuel |- *. lia.
  - destruct depth as [|depth]; [discriminate Hnat|].
    bind_inv Ht. rename a into ts. ok_inv Ht.
    simpl in Hnat. apply andb_prop in Hnat as [Hk Hnd].
    apply bool_decide_eq_true in Hnd.
    destruct d as [|kv d].
    + by inversion E.
    + simpl String.append. rewrite string_app_assoc. simpl String.append.
      assert (Ho : opens_value (ts +:+ String "}" rest)).
      { apply opens_value_app.
        eapply (join_items_opens _ (kv :: d)); [|done|done].
        intros x tx Hx. do 2 bind_inv Hx. by inversion Hx. }
      simpl. rewrite (skip_ws_opens _ Ho).
      destruct (ts +:+ String "}" rest) as [|c r] eqn:Etxt; [done|].
      destruct Ho as (_ & _ & ->). rewrite <- Etxt.
      rewrite (scan_object_members (kv :: d) IH ts fuel depth rest); try done.
      * by rewrite (dict_of_pairs_native depth).
      * simpl in Hfuel |- *. lia.
Qed.

Lemma string_app_nil_r (s : string) : s +:+ "" = s.
Proof. induction s as [|c s IH]; simpl; [done | by rewrite IH]. Qed.

Lemma join_items_fuel {A} (f : A → result string) (g : A → nat) l ts :
  Forall (λ x, ∀ t, f x = Ok t → (g x ≤ String.length t)%nat) l →
  join_items f l = Ok ts →
  (list_sum (map (λ x, S (g x)) l) ≤ S (String.length ts))%nat.
Proof.
  intros Hl. revert ts. induction Hl as [|x l Hx Hl IH]; intros ts Hts.
  - simpl. lia.
  - rewrite join_items_cons in Hts. bind_inv Hts. rename a into t.
    specialize (Hx t E). destruct l as [|y l'].
    + ok_inv Hts. simpl. lia.
    + bind_inv Hts. rename a into ts'. ok_inv Hts.
      specialize (IH ts' E0). rewrite !string_app_length.
      simpl in IH |- *. lia.
Qed.

Lemma scan_fuel_le_length depth v t :
  dumps_value depth v = Ok t → (scan_fuel v ≤ String.length t)%nat.
Proof.
  revert depth t.
  induction v as [| b | z | s | l IH | l IH | d IH | o] using pyval_nested_ind;
    intros depth t Ht; simpl in Ht.
  - ok_inv Ht. simpl. lia.
  - destruct b; ok_inv Ht; simpl; lia.
  - apply int_repr_Ok in Ht as [_ ->].
    destruct (int_text_head z) as (c & r & -> & _). simpl. lia.
  - ok_inv Ht. simpl. lia.
  - destruct depth as [|depth]; [discriminate Ht|].
    bind_inv Ht. ok_inv Ht.
    assert (H : (list_sum (map (λ x, S (scan_fuel x)) l)
                 ≤ S (String.length a))%nat).
    { eapply (join_items_fuel (dumps_value depth) scan_fuel); [|exact E].
      eapply Forall_impl; [exact IH|]. intros x Hx tx. apply Hx. }
    simpl. rewrite string_app_length. simpl. lia.
  - destruct depth as [|depth]; [discriminate Ht|].
    bind_inv Ht. ok_inv Ht.
    assert (H : (list_sum (map (λ x, S (scan_fuel x)) l)
                 ≤ S (String.length a))%nat).
    { eapply (join_items_fuel (dumps_value depth) scan_fuel); [|exact E].
      eapply Forall_impl; [exact IH|]. intros x Hx tx. apply Hx. }
    simpl. rewrite string_app_length. simpl. lia.
  - destruct depth as [|depth]; [discriminate Ht|].
    bind_inv Ht. ok_inv Ht.
    assert (H : (list_sum (map (λ kv : pyval * pyval, S (scan_fuel kv.2)) d)
                 ≤ S (String.length a))%nat).
    { eapply (join_items_fuel _ (λ kv : pyval * pyval, scan_fuel kv.2)); [|exact E].
      eapply Forall_impl; [exact IH|]. intros [k v] Hv tm Htm.
      cbn [fst snd] in Hv, Htm |- *.
      do 2 bind_inv Htm. ok_inv Htm. specialize (Hv _ _ E1).
      simpl. rewrite ?string_app_length. simpl. lia. }
    simpl. rewrite string_app_length. simpl. lia.
  - discriminate Ht.
Qed.

Lemma join_items_total {A} (f : A → result string) l :
  Forall (λ x, ∃ t, f x = Ok t) l → ∃ ts, join_items f l = Ok ts.
Proof.
  induction 1 as [|x l [t Ht] Hl [ts Hts]]; [by exists ""|].
  rewrite join_items_cons, Ht. simpl. destruct l; [by eexists|].
  rewrite Hts. by eexists.
Qed.

Lemma native_within_dumps depth v :
  native_within depth v = true → ∃ t, dumps_value depth v = Ok t.
Proof.
  revert depth.
  induction v as [| b | z | s | l IH | l IH | d IH | o] using pyval_nested_ind;
    intros depth Hnat; simpl in Hnat |- *; try discriminate Hnat;
    try (by eexists).
  - destruct b; by eexists.
  - unfold int_repr. rewrite Hnat. by eexists.
  - destruct depth as [|depth]; [discriminate Hnat|].
    destruct (join_items_total (dumps_value depth) l) as [ts ->]; [|by eexists].
    rewrite forallb_forall in Hnat. rewrite Forall_forall in IH |- *.
    intros x Hx. apply IH; [done|]. apply Hnat. by apply list_elem_of_In.
  - destruct depth as [|depth]; [discriminate Hnat|].
    apply andb_prop in Hnat as [Hk _].
    match goal with
    | |- context [join_items ?f d] =>
        destruct (join_items_total f d) as [ts ->]; [|by eexists]
    end.
    rewrite forallb_forall in Hk. rewrite Forall_forall in IH |- *.
    intros [k v] Hx. specialize (Hk _ (proj1 (list_elem_of_In _ _) Hx)).
    simpl in Hk |- *. destruct k; try discriminate Hk. simpl.
    destruct (IH _ Hx _ Hk) as [t Ht]. simpl in Ht. rewrite Ht. by eexists.
Qed.

(** Every value of the faithful fragment has an encoding. *)
Lemma json_native_dumps v :
  json_native v = true → ∃ t, json_dumps v = Ok t.
Proof. apply native_within_dumps. Qed.

(** The decoder reads every encoded value of the faithful fragment back. *)
Lemma json_loads_dumps v t :
  json_native v = true → json_dumps v = Ok t → json_loads t = Ok v.
Proof.
  unfold json_native, json_dumps. intros Hnat Ht. unfold json_loads.
  pose proof (dumps_value_opens _ v t Ht) as Ho.
  rewrite (skip_ws_opens t Ho).
  rewrite <- (string_app_nil_r t) at 2.
  rewrite (dumps_value_reads_back v t (S (String.length t)) max_nesting "");
    try done.
  pose proof (scan_fuel_le_length _ v t Ht). lia.
Qed.


(** ** What the textual format does not keep

    [json.dumps] accepts tuples and dict keys that are not strings, and
    writes them as arrays and as strings; they do not come back as they
    were. *)

Example json_tuple_comes_back_as_list :
  json_dumps (PTuple [PInt 1; PInt 2]) ≫= json_loads
  = Ok (PList [PInt 1; PInt 2]).
Proof. reflexivity. Qed.

Example json_int_key_comes_back_as_str :
  json_dumps (PDict [(PInt 1, PStr "a")]) ≫= json_loads
  = Ok (PDict [(PStr "1", PStr "a")]).
Proof. reflexivity. Qed.

Example json_colliding_keys_merge :
  json_dumps (PDict [(PInt 1, PStr "a"); (PStr "1", PStr "b")])
    ≫= json_loads
  = Ok (PDict [(PStr "1", PStr "b")]).
Proof. reflexivity. Qed.

(** ** The order of the statuses *)

Lemma declaration_position_members s :
  RequestStatus_members !! declaration_position s = Some s.
Proof. by destruct s. Qed.

(** C7: for every pair of statuses, [s1 > s2] is computed without raising,
    and it is true exactly when [s1] comes strictly later than [s2] in the
    order PENDING, RUNNING, SUCCEEDED, FAILED, ABORTED. *)
Theorem RequestStatus_gt_declaration_order (s1 s2 : RequestStatus) :
  RequestStatus_gt s1 s2
  = Ok (bool_decide (declaration_position s2 < declaration_position s1)%nat).
Proof. destruct s1, s2; reflexivity. Qed.

(** ** Encoding and decoding a record *)

Lemma RequestStatus_of_value_value s :
  RequestStatus_of_value (RequestStatus_value s) = Ok s.
Proof. by destruct s. Qed.

Lemma encode_decode_native (r : RequestTask.t) :
  json_native (RequestTask.request_body r) = true →
  json_native (RequestTask.return_value r) = true →
  json_native (RequestTask.error r) = true →
  ∃ p, RequestTask.encode r = Ret p ∧ RequestTask.decode p = Ok r.
Proof.
  intros Hb Hv He.
  destruct (json_native_dumps _ Hb) as [tb Htb].
  destruct (json_native_dumps _ Hv) as [tv Htv].
  destruct (json_native_dumps _ He) as [te Hte].
  eexists. split.
  - unfold RequestTask.encode. rewrite Htb, Htv, Hte. reflexivity.
  - unfold RequestTask.decode. simpl.
    rewrite (json_loads_dumps _ _ Hb Htb), (json_loads_dumps _ _ Hv Htv),
      (json_loads_dumps _ _ He Hte), RequestStatus_of_value_value.
    by destruct r.
Qed.




(** ** The error of a record *)

Section RecordAccessors.
Context `{Handlers}.

(** C4: when the error codec obeys its law, [get_error] after
    [set_error e] returns the reconstructed object [e] under ["object"],
    the class name of [e] under ["type"] and [str(e)] under
    ["message"]. *)
Theorem get_error_set_error (r : RequestTask.t) (e : pyobject) :
  pickle_inverse →
  (RequestTask.get_error (RequestTask.set_error e r).2).1
  = Ok (PDict [(PStr "object", PObj e);
               (PStr "type", PStr (type_name e));
               (PStr "message", PStr (str_of e))]).
Proof.
  intros Hinv. unfold RequestTask.get_error, RequestTask.set_error. simpl.
  by rewrite Hinv.
Qed.

(** C9: [set_error] leaves every field but [error] as it was, and
    [set_return_value] leaves every field but [return_value] as it was,
    whether the handler of the name is found or not. *)
Theorem setters_frame (r : RequestTask.t) (e : pyobject) (v : pyval) :
  let r1 := (RequestTask.set_error e r).2 in
  let r2 := (RequestTask.set_return_value v r).2 in
  (RequestTask.request_id r1 = RequestTask.request_id r
   ∧ RequestTask.name r1 = RequestTask.name r
   ∧ RequestTask.entrypoint r1 = RequestTask.entrypoint r
   ∧ RequestTask.request_body r1 = RequestTask.request_body r
   ∧ RequestTask.status r1 = RequestTask.status r
   ∧ RequestTask.return_value r1 = RequestTask.return_value r
   ∧ RequestTask.pid r1 = RequestTask.pid r)
  ∧ (RequestTask.request_id r2 = RequestTask.request_id r
     ∧ RequestTask.name r2 = RequestTask.name r
     ∧ RequestTask.entrypoint r2 = RequestTask.entrypoint r
     ∧ RequestTask.request_body r2 = RequestTask.request_body r
     ∧ RequestTask.status r2 = RequestTask.status r
     ∧ RequestTask.error r2 = RequestTask.error r
     ∧ RequestTask.pid r2 = RequestTask.pid r).
Proof.
  split; [done|]. unfold RequestTask.set_return_value.
  destruct (encoders_get_handler (RequestTask.name r) ≫= _); done.
Qed.

Lemma get_error_leaves_record (r : RequestTask.t) :
  (RequestTask.get_error r).2 = r.
Proof. reflexivity. Qed.

Lemma get_error_None_iff (r : RequestTask.t) :
  (RequestTask.get_error r).1 = Ok PNone ↔ RequestTask.error r = PNone.
Proof.
  unfold RequestTask.get_error. simpl. split.
  - destruct (RequestTask.error r) eqn:E; try done;
      intros Hg; bind_inv Hg; bind_inv Hg; bind_inv Hg; discriminate Hg.
  - by intros ->.
Qed.

(** C10, as amended: [get_error] returns [None] exactly when the error
    field is [None]; when the field is a dict that has the entries
    ["object"], ["type"] and ["message"], and the object decodes,
    [get_error] returns a dict with exactly these three keys. *)
Theorem get_error_shape (r : RequestTask.t) :
  ((RequestTask.get_error r).1 = Ok PNone ↔ RequestTask.error r = PNone)
  ∧ ∀ d o obj t m,
      RequestTask.error r = PDict d →
      py_getitem (PDict d) "object" = Ok o →
      _decode_and_unpickle o = Ok obj →
      py_getitem (PDict d) "type" = Ok t →
      py_getitem (PDict d) "message" = Ok m →
      (RequestTask.get_error r).1
      = Ok (PDict [(PStr "object", obj); (PStr "type", t);
                   (PStr "message", m)]).
Proof.
  split; [apply get_error_None_iff|].
  intros d o obj t m Hd Ho Hobj Ht Hm.
  unfold RequestTask.get_error. rewrite Hd. cbn [fst].
  rewrite Ho. cbn [mbind result_bind]. rewrite Hobj, Ht, Hm. done.
Qed.
End RecordAccessors.

Lemma example_pickle_inverse : @pickle_inverse example_handlers.
Proof.
  intros [cls msg].
  change (example_unpickle (PStr (example_pickle (PyObject cls msg)))
          = Ok (PObj (PyObject cls msg))).
  unfold example_unpickle, example_pickle. cbn [type_name str_of].
  destruct (json_native_dumps (PList [PStr cls; PStr msg]) eq_refl)
    as [t Ht].
  rewrite Ht.
  by rewrite (json_loads_dumps (PList [PStr cls; PStr msg]) t eq_refl Ht).
Qed.

Lemma get_error_set_error_witness :
  @pickle_inverse example_handlers
  ∧ (@RequestTask.get_error example_handlers
       (@RequestTask.set_error example_handlers example_error
          example_task).2).1
    = Ok (PDict [(PStr "object", PObj example_error);
                 (PStr "type", PStr "ValueError");
                 (PStr "message", PStr "bad input")]).
Proof.
  split; [exact example_pickle_inverse|].
  apply (@get_error_set_error example_handlers example_task example_error).
  exact example_pickle_inverse.
Defined.

(** C10, as stated, fails: a record whose error is the empty dict has an
    error that is not [None], and [get_error] raises [KeyError] instead of
    returning a dict. *)
Lemma get_error_empty_dict_raises :
  RequestTask.error task_with_empty_error ≠ PNone
  ∧ (@RequestTask.get_error example_handlers task_with_empty_error).1
    = Err (KeyError "object").
Proof. split; [discriminate | reflexivity]. Qed.

Lemma get_error_shape_witness :
  (@RequestTask.get_error example_handlers
     (@RequestTask.set_error example_handlers example_error example_task).2).1
  = Ok (PDict [(PStr "object", PObj example_error);
               (PStr "type", PStr "ValueError");
               (PStr "message", PStr "bad input")]).
Proof.
  refine (proj2 (@get_error_shape example_handlers
            (@RequestTask.set_error example_handlers example_error
               example_task).2) _ _ _ _ _ eq_refl eq_refl _ eq_refl eq_refl).
  exact (example_pickle_inverse example_error).
Defined.

(** ** Encoding failures *)

Lemma join_items_error_type {A} (f : A → result string) l e :
  Forall (λ x, ∀ e, f x = Err e → encoding_error e) l →
  join_items f l = Err e → encoding_error e.
Proof.
  induction 1 as [|x l Hx Hl IH]; [done|]. rewrite join_items_cons.
  destruct (f x) as [t|e'] eqn:Ex; simpl.
  - destruct l as [|y l']; [done|].
    destruct (join_items f (y :: l')) as [ts|e'] eqn:El; simpl; [done|].
    intros [= <-]. by apply IH.
  - intros [= <-]. by apply Hx.
Qed.

Lemma int_repr_error_type z e : int_repr z = Err e → encoding_error e.
Proof.
  unfold int_repr. destruct (within_str_digits _); [done|].
  intros [= <-]. right. by left.
Qed.

(** What [json.dumps] raises is a [TypeError], the [ValueError] of an
    integer with too many digits, or a [RecursionError]. *)
Lemma dumps_value_error_type depth v e :
  dumps_value depth v = Err e → encoding_error e.
Proof.
  revert depth e.
  induction v as [| b | z | s | l IH | l IH | d IH | o] using pyval_nested_ind;
    intros depth e He; simpl in He; try discriminate He.
  - by destruct b.
  - by eapply int_repr_error_type.
  - destruct depth as [|depth]; [injection He as <-; right; by right|].
    destruct (join_items (dumps_value depth) l) as [ts|e'] eqn:El; [done|].
    injection He as <-. eapply join_items_error_type; [|exact El].
    eapply Forall_impl; [exact IH|]. intros x Hx e. apply Hx.
  - destruct depth as [|depth]; [injection He as <-; right; by right|].
    destruct (join_items (dumps_value depth) l) as [ts|e'] eqn:El; [done|].
    injection He as <-. eapply join_items_error_type; [|exact El].
    eapply Forall_impl; [exact IH|]. intros x Hx e. apply Hx.
  - destruct depth as [|depth]; [injection He as <-; right; by right|].
    match type of He with
    | context [join_items ?f d] =>
        destruct (join_items f d) as [ts|e'] eqn:El; [done|]
    end.
    injection He as <-. eapply join_items_error_type; [|exact El].
    eapply Forall_impl; [exact IH|]. intros [k v] Hv e Hkv.
    cbn [fst snd] in Hv, Hkv.
    destruct (key_text k) as [kt|ek] eqn:Ek; simpl in Hkv.
    + destruct (dumps_value depth v) as [t|ev] eqn:Ev; [done|].
      injection Hkv as <-. by eapply Hv.
    + injection Hkv as <-.
      destruct k as [| | | | | | |]; simpl in Ek; try discriminate Ek;
        try (injection Ek as <-; by left).
      * by destruct b.
      * by eapply int_repr_error_type.
  - injection He as <-. by left.
Qed.

Lemma json_dumps_error_type v e :
  json_dumps v = Err e → encoding_error e.
Proof. apply dumps_value_error_type. Qed.

Lemma run_encode_raises (r : RequestTask.t) (e : pyobject) (w : World) :
  (request_body ← json_dumps (RequestTask.request_body r);
   return_value ← json_dumps (RequestTask.return_value r);
   error ← json_dumps (RequestTask.error r);
   Ok (RequestTaskPayload.mk
         (RequestTask.request_id r) (RequestTask.name r)
         (RequestTask.entrypoint r)
         request_body (RequestStatus_value (RequestTask.status r))
         return_value error (RequestTask.pid r))) = Err e →
  type_name e = "TypeError" →
  run (RequestTask.encode r) w
  = (Raised e, w, [Print (RequestTask.encode_diagnostic r)]).
Proof.
  intros He Hty. unfold RequestTask.encode. rewrite He. simpl.
  by rewrite Hty.
Qed.

(** An error of [json.dumps] that is no [TypeError] passes the handler of
    [encode]: nothing is printed. *)
Lemma run_encode_raises_other (r : RequestTask.t) (e : pyobject) (w : World) :
  (request_body ← json_dumps (RequestTask.request_body r);
   return_value ← json_dumps (RequestTask.return_value r);
   error ← json_dumps (RequestTask.error r);
   Ok (RequestTaskPayload.mk
         (RequestTask.request_id r) (RequestTask.name r)
         (RequestTask.entrypoint r)
         request_body (RequestStatus_value (RequestTask.status r))
         return_value error (RequestTask.pid r))) = Err e →
  type_name e ≠ "TypeError" →
  run (RequestTask.encode r) w = (Raised e, w, []).
Proof.
  intros He Hty. unfold RequestTask.encode. rewrite He. simpl.
  destruct (String.eqb_spec (type_name e) "TypeError"); done.
Qed.

(** C8: the claim fails on the code.  The error of
    [task_with_bytes_error] holds a [bytes] object and is the one field
    that [json.dumps] rejects; [encode] raises the [TypeError], but the
    diagnostic it prints before shows the request id, the name, the
    request body and the return value, and not the error, the offending
    field.  And the tuple that is the return value of [task_with_tuple]
    is written as an array without an error or a diagnostic: the payload
    decodes to the record with a list in its place. *)
Theorem encode_diagnostic_omits_error :
  json_dumps (RequestTask.error task_with_bytes_error)
  = Err (TypeError "Object of type bytes is not JSON serializable")
  ∧ run (RequestTask.encode task_with_bytes_error) fresh_world
    = (Raised (TypeError "Object of type bytes is not JSON serializable"),
       fresh_world,
       [Print (RequestTask.encode_diagnostic task_with_bytes_error)])
  ∧ (Fmt (RequestTask.error task_with_bytes_error)
       ∉ RequestTask.encode_diagnostic task_with_bytes_error)
  ∧ ∃ p, run (RequestTask.encode task_with_tuple) fresh_world
         = (Returned p, fresh_world, [])
         ∧ RequestTask.decode p = Ok task_with_list.
Proof.
  split; [reflexivity|]. split; [reflexivity|]. split.
  - unfold RequestTask.encode_diagnostic. simpl. intros Hin.
    repeat (apply elem_of_cons in Hin as [Hin|Hin]; [discriminate Hin|]).
    by apply elem_of_nil in Hin.
  - eexists. split; reflexivity.
Qed.


(** ** Running computations *)

Lemma run_bind {A B} (m : prog A) (f : A → prog B) (w : World) :
  run (m ≫= f) w
  = match run m w with
    | (Returned a, w', tr) =>
        let '(o, w'', tr') := run (f a) w' in (o, w'', tr ++ tr')
    | (Raised e, w', tr) => (Raised e, w', tr)
    | (Blocked, w', tr) => (Blocked, w', tr)
    end.
Proof.
  unfold mbind, prog_mbind. revert w.
  induction m as [a | e | a k IH]; intros w; simpl.
  - by destruct (run (f a) w) as [[o w'] tr].
  - done.
  - destruct (exec a w) as [[r w']|]; [|done].
    rewrite IH. destruct (run (k r) w') as [[[b | e |] w''] tr]; try done.
    by destruct (run (f b) w'') as [[o w3] tr'].
Qed.

Lemma run_perform (a : action) (w : World) :
  run (perform a) w
  = match exec a w with
    | Some (Ok b, w') => (Returned b, w', [a])
    | Some (Err e, w') => (Raised e, w', [a])
    | None => (Blocked, w, [])
    end.
Proof. simpl. by destruct (exec a w) as [[[b|e] w']|]. Qed.

Lemma run_lift {A} (r : result A) (w : World) :
  run (lift r) w
  = match r with
    | Ok a => (Returned a, w, [])
    | Err e => (Raised e, w, [])
    end.
Proof. by destruct r. Qed.

Lemma run_try_finally {A} (body : prog A) (cleanup : prog unit) (w : World) :
  run (try_finally body cleanup) w
  = match run body w with
    | (Returned a, w', tr) =>
        let '(o, w'', tr') := run cleanup w' in
        (match o with
         | Returned _ => Returned a
         | Raised e => Raised e
         | Blocked => Blocked
         end, w'', tr ++ tr')
    | (Raised e, w', tr) =>
        let '(o, w'', tr') := run cleanup w' in
        (match o with
         | Returned _ => Raised e
         | Raised e' => Raised e'
         | Blocked => Blocked
         end, w'', tr ++ tr')
    | (Blocked, w', tr) => (Blocked, w', tr)
    end.
Proof.
  revert w. induction body as [a | e | a k IH]; intros w.
  - simpl try_finally. rewrite run_bind. simpl.
    destruct (run cleanup w) as [[[[] | e |] w'] tr]; by rewrite ?app_nil_r.
  - simpl try_finally. rewrite run_bind. simpl.
    destruct (run cleanup w) as [[[[] | e' |] w'] tr]; by rewrite ?app_nil_r.
  - simpl. destruct (exec a w) as [[r w']|]; [|done].
    rewrite IH. destruct (run (k r) w') as [[[b | e |] w''] tr]; try done.
    + by destruct (run cleanup w'') as [[o w3] tr'].
    + by destruct (run cleanup w'') as [[o w3] tr'].
Qed.

(** With the lock free, the body runs between the acquire and the
    release, and its outcome is the outcome of the whole. *)
Lemma run_with_FileLock {A} (path : string) (body : prog A) (w : World) :
  path ∉ held_locks w → lock_path_error path = None →
  run (with_FileLock path body) w
  = let '(o, w', tr) :=
      run body (set_held_locks (path :: held_locks w) w) in
    match o with
    | Blocked => (Blocked, w', LockAcquire path :: tr)
    | _ => (o,
            set_held_locks (filter (λ p, p ≠ path) (held_locks w')) w',
            LockAcquire path :: tr ++ [LockRelease path])
    end.
Proof.
  intros Hfree Hname. unfold with_FileLock. rewrite run_bind, run_perform.
  simpl exec. rewrite bool_decide_eq_false_2 by done. rewrite Hname.
  rewrite run_try_finally.
  destruct (run body _) as [[[a | e |] w'] tr]; simpl; done.
Qed.

(** A lock file that cannot be opened: the acquire raises, and the body
    does not run. *)
Lemma run_with_FileLock_unusable {A} (path : string) (body : prog A)
    (w : World) (e : pyobject) :
  path ∉ held_locks w → lock_path_error path = Some e →
  run (with_FileLock path body) w = (Raised e, w, [LockAcquire path]).
Proof.
  intros Hfree Hname. unfold with_FileLock. rewrite run_bind, run_perform.
  simpl exec. rewrite bool_decide_eq_false_2 by done. by rewrite Hname.
Qed.


(** ** What the actions leave alone *)

Lemma rows_at_insert (w : World) (i : nat) (db db' : Database) :
  files w !! i = Some db →
  default ∅ (rest_tasks db') = default ∅ (rest_tasks db) →
  ∀ j, rows_at (set_files (<[i := db']> (files w)) w) j = rows_at w j.
Proof.
  intros Hi Hrows j. unfold rows_at. simpl.
  destruct (decide (i = j)) as [<-|Hne].
  - rewrite list_lookup_insert_eq by (by eapply lookup_lt_Some).
    by rewrite Hi.
  - by rewrite list_lookup_insert_ne.
Qed.

Lemma rows_at_new_file (w : World) (f : option nat) :
  ∀ j, rows_at (set_db_file f
                  (set_files (files w ++ [{| rest_tasks := None |}]) w)) j
       = rows_at w j.
Proof.
  intros j. unfold rows_at. simpl.
  destruct (decide (j < length (files w))%nat) as [Hlt|Hge].
  - by rewrite lookup_app_l.
  - rewrite lookup_app_r by lia. rewrite (lookup_ge_None_2 (files w)) by lia.
    by destruct (j - length (files w))%nat as [|[|n]].
Qed.

Lemma exec_rows_at (a : action) (w w' : World) (r : result (reply a)) :
  exec a w = Some (r, w') → is_insert a = false →
  ∀ j, rows_at w' j = rows_at w j.
Proof.
  intros He Hins j.
  destruct a as [| c | | path | c stmt | path | path | path | text];
    simpl in He.
  - by injection He as _ <-.
  - by injection He as _ <-.
  - by injection He as _ <-.
  - destruct (String.eqb path _DB_PATH); [|by injection He as _ <-].
    destruct (db_file w) as [i|]; [by injection He as _ <-|].
    injection He as _ <-. apply rows_at_new_file.
  - destruct (files w !! conn c) as [db|] eqn:Ec; [|by injection He as _ <-].
    destruct stmt as [| | request_id | row]; try discriminate Hins.
    + destruct (journal_mode_error w); by injection He as _ <-.
    + simpl in He. destruct (rest_tasks db) as [table|] eqn:Et;
        injection He as _ <-; eapply rows_at_insert; try done.
      by rewrite Et.
    + simpl in He. destruct (rest_tasks db) as [table|] eqn:Et;
        injection He as _ <-; by eapply rows_at_insert.
  - destruct (String.eqb path _DB_PATH); by injection He as _ <-.
  - destruct (bool_decide (path ∈ held_locks w)); [done|].
    destruct (lock_path_error path); by injection He as _ <-.
  - by injection He as _ <-.
  - by injection He as _ <-.
Qed.

(** A computation that performs no insert leaves the rows of every
    database file as they were. *)
Lemma run_rows_at {A} (p : prog A) (w w' : World) o tr :
  run p w = (o, w', tr) → no_insert tr = true →
  ∀ j, rows_at w' j = rows_at w j.
Proof.
  revert w w' o tr. induction p as [a | e | a k IH]; intros w w' o tr Hrun Hni j.
  - by injection Hrun as _ <- _.
  - by injection Hrun as _ <- _.
  - simpl in Hrun. destruct (exec a w) as [[r w1]|] eqn:He;
      [|by injection Hrun as _ <- _].
    destruct (run (k r) w1) as [[o1 w2] tr1] eqn:Hk.
    injection Hrun as _ <- <-. simpl in Hni.
    apply andb_prop in Hni as [Ha Htr].
    rewrite (IH r w1 w2 o1 tr1 Hk Htr j).
    eapply exec_rows_at; [done|]. by destruct (is_insert a).
Qed.

(** ** Initialisation *)

Lemma run_init_db_ready {A} (p : prog A) (w : World) c :
  _DB w = Some c →
  run (init_db p) w = let '(o, w', tr) := run p w in (o, w', GetDB :: tr).
Proof.
  intros Hdb. unfold init_db. simpl. rewrite Hdb. simpl.
  by destruct (run p w) as [[o w'] tr].
Qed.

Lemma database_eta (db : Database) table :
  rest_tasks db = Some table → {| rest_tasks := Some table |} = db.
Proof. destruct db as [t]. simpl. by intros ->. Qed.

(** [create_table] on an open file: it returns with the table in place
    when enabling WAL does not stop it, and raises with the world
    untouched otherwise. *)
Lemma run_create_table (c : SQLiteConn) (w : World) (db : Database) :
  files w !! conn c = Some db →
  ∃ tr, no_insert tr = true ∧ no_lock_acquire tr = true
        ∧ if journal_mode_ok w
          then existsb is_create_table tr = true
               ∧ run (create_table c) w
                 = (Returned (), with_table (conn c) w, tr)
          else ∃ e, run (create_table c) w = (Raised e, w, tr).
Proof.
  intros Hc. unfold create_table, journal_mode_ok, with_table.
  rewrite Hc. unfold mbind, prog_mbind. simpl.
  destruct (on_wsl w) eqn:Hwsl; simpl.
  - rewrite Hc. simpl. exists [IsWsl; Execute c CreateTableIfNotExists].
    repeat split.
    destruct (rest_tasks db) as [table|] eqn:Et; simpl; [|done].
    by rewrite (database_eta db table Et).
  - rewrite Hc.
    destruct (journal_mode_error w) as [msg|] eqn:Hje; simpl.
    + destruct (is_substring "database is locked" msg) eqn:Hmsg; simpl.
      * rewrite Hc. simpl.
        exists [IsWsl; Execute c PragmaJournalModeWAL;
                Execute c CreateTableIfNotExists].
        repeat split.
        destruct (rest_tasks db) as [table|] eqn:Et; simpl; [|done].
        by rewrite (database_eta db table Et).
      * exists [IsWsl; Execute c PragmaJournalModeWAL].
        repeat split. by eexists.
    + rewrite Hc. simpl.
      exists [IsWsl; Execute c PragmaJournalModeWAL;
              Execute c CreateTableIfNotExists].
      repeat split.
      destruct (rest_tasks db) as [table|] eqn:Et; simpl; [|done].
      by rewrite (database_eta db table Et).
Qed.

Lemma journal_mode_ok_connected (w : World) :
  journal_mode_ok (connected w).2 = journal_mode_ok w.
Proof. unfold connected. by destruct (db_file w). Qed.

(** The first access of a process: the file is opened, created if there
    is none, the table is created on it, and [_DB] is set; later accesses
    find [_DB] set and go on at once. *)
Lemma run_init_db {A} (p : prog A) (w : World) :
  store_ok w →
  ∃ tr1, no_insert tr1 = true ∧ no_lock_acquire tr1 = true
         ∧ (_DB w = None → existsb is_create_table tr1 = true)
         ∧ run (init_db p) w
           = let '(o, w', tr) := run p (ready w) in (o, w', tr1 ++ tr).
Proof.
  intros (Hdb & Hfile & Hjm). unfold ready.
  destruct (_DB w) as [c|] eqn:Ec.
  - exists [GetDB]. repeat split; [done|].
    by rewrite (run_init_db_ready p w c Ec).
  - specialize (Hjm eq_refl).
    assert (Hopen : ∃ db, files (connected w).2 !! (connected w).1 = Some db).
    { unfold connected. destruct (db_file w) as [i|] eqn:Ef; simpl.
      - destruct (Hfile i eq_refl) as [db Hi]. by exists db.
      - eexists. by apply list_lookup_middle. }
    destruct Hopen as [db Hopen].
    destruct (run_create_table {| conn := (connected w).1 |} (connected w).2
                db Hopen) as (tr & Hni & Hnl & Hct).
    rewrite journal_mode_ok_connected, Hjm in Hct. destruct Hct as [Hex Hrun].
    exists (GetDB :: Connect _DB_PATH :: tr
            ++ [SetDB {| conn := (connected w).1 |}]).
    split; [|split; [|split]].
    + unfold no_insert in *. simpl. rewrite forallb_app, Hni. done.
    + unfold no_lock_acquire in *. simpl. rewrite forallb_app, Hnl. done.
    + intros _. simpl. rewrite existsb_app, Hex. done.
    + unfold init_db, SQLiteConn_new. rewrite !run_bind. simpl run at 1.
      rewrite Ec. cbv iota beta. rewrite !run_bind.
      pose proof (run_perform (Connect _DB_PATH) w) as Hconn.
      assert (Hexec : exec (Connect _DB_PATH) w
                      = Some (Ok {| conn := (connected w).1 |},
                              (connected w).2)).
      { unfold connected. simpl. by destruct (db_file w). }
      rewrite Hexec in Hconn. cbn [reply] in Hconn. rewrite Hconn. cbv iota beta. rewrite !run_bind, Hrun.
      cbv iota beta. simpl run at 1. simpl run at 1. cbv iota beta.
      unfold initialised. destruct (connected w) as [i w0]. simpl.
      destruct (run p _) as [[o w'] tr']. simpl.
      by rewrite <- !app_assoc.
Qed.

Lemma set_files_insert_id (w : World) (i : nat) (db : Database) :
  files w !! i = Some db → set_files (<[i := db]> (files w)) w = w.
Proof. intros Hi. destruct w. unfold set_files. simpl in *. by rewrite list_insert_id. Qed.

(** In the world the body starts in, [_DB] is a connection to a file whose
    table holds exactly the rows that were visible before, and the locks
    are as they were. *)
Lemma ready_facts (w : World) :
  store_ok w →
  ∃ c, _DB (ready w) = Some c
       ∧ files (ready w) !! conn c
         = Some {| rest_tasks := Some (visible_rows w) |}
       ∧ held_locks (ready w) = held_locks w.
Proof.
  intros (Hdb & Hfile & _). unfold ready, visible_rows, open_file, rows_at.
  destruct (_DB w) as [c|] eqn:Ec.
  - destruct (Hdb c eq_refl) as [table Hc]. exists c. rewrite Ec, Hc. done.
  - unfold initialised, connected, with_table.
    destruct (db_file w) as [i|] eqn:Ef.
    + destruct (Hfile i eq_refl) as [db Hi]. rewrite Hi. simpl.
      exists {| conn := i |}. split; [done|]. split; [|done].
      simpl. rewrite list_lookup_insert_eq by (by eapply lookup_lt_Some).
      done.
    + simpl. rewrite list_lookup_middle by done. simpl.
      exists {| conn := length (files w) |}. split; [done|]. split; [|done].
      simpl. rewrite list_lookup_insert_eq; [done|].
      rewrite length_app. simpl. lia.
Qed.

Lemma ready_visible_rows (w : World) :
  store_ok w → visible_rows (ready w) = visible_rows w.
Proof.
  intros Hok. destruct (ready_facts w Hok) as (c & Hdb & Hc & _).
  unfold visible_rows at 1, open_file, rows_at. by rewrite Hdb, Hc.
Qed.

(** The locks play no part in the order of the store. *)
Lemma ready_store_ok (w : World) (l : list string) :
  store_ok w → store_ok (set_held_locks l (ready w)).
Proof.
  intros Hok. destruct (ready_facts w Hok) as (c & Hdb & Hc & _).
  unfold store_ok. simpl. rewrite Hdb. split; [|split; [|done]].
  - intros c' [= <-]. by eexists.
  - destruct Hok as (_ & Hfile & _). unfold ready.
    destruct (_DB w); [done|]. unfold initialised, connected, with_table.
    destruct (db_file w) as [i|] eqn:Ef; simpl.
    + destruct (Hfile i eq_refl) as [db Hi]. rewrite Hi. simpl.
      intros j Hj. rewrite Ef in Hj. injection Hj as <-.
      rewrite list_lookup_insert_eq; [done|]. by eapply lookup_lt_Some.
    + rewrite list_lookup_middle by done. simpl.
      intros j [= <-]. rewrite list_lookup_insert_eq; [done|].
      rewrite length_app. simpl. lia.
Qed.

(** ** Reading and writing a row *)

Lemma run_get_rest_task_no_lock (w : World) c table request_id :
  _DB w = Some c →
  files w !! conn c = Some {| rest_tasks := Some table |} →
  run (_get_rest_task_no_lock request_id) w
  = (match table !! request_id with
     | None => Returned None
     | Some row =>
         match RequestTask.from_row row with
         | Ok t => Returned (Some t)
         | Err e => Raised e
         end
     end, w, [GetDB; Execute c (SelectByRequestId request_id)]).
Proof.
  intros Hdb Hc. unfold _get_rest_task_no_lock, mbind, prog_mbind. simpl.
  rewrite Hdb. simpl. rewrite Hc. simpl.
  rewrite (set_files_insert_id w (conn c) _ Hc).
  destruct (table !! request_id) as [row|]; simpl; [|done].
  by destruct (RequestTask.from_row row).
Qed.

Lemma payload_of_row_of_payload (p : RequestTaskPayload.t) :
  row_of_payload p ≫= payload_of_row = Ok p.
Proof. by destruct p as [? ? ? ? ? ? ? [z|]]. Qed.

(** [encode] copies the request id and the pid. *)
Lemma encode_keeps (r : RequestTask.t) p :
  RequestTask.encode r = Ret p →
  RequestTaskPayload.request_id p = RequestTask.request_id r
  ∧ RequestTaskPayload.pid p = RequestTask.pid r.
Proof.
  unfold RequestTask.encode. intros Hp.
  destruct (json_dumps (RequestTask.request_body r)); [|simpl in Hp;
    destruct (String.eqb _ _); simpl in Hp; discriminate Hp].
  destruct (json_dumps (RequestTask.return_value r)); [|simpl in Hp;
    destruct (String.eqb _ _); simpl in Hp; discriminate Hp].
  destruct (json_dumps (RequestTask.error r)); [|simpl in Hp;
    destruct (String.eqb _ _); simpl in Hp; discriminate Hp].
  simpl in Hp. by injection Hp as <-.
Qed.

(** Writing an encodable record whose pid fits puts its row under its
    request id. *)
Lemma run_dump_request_no_lock (w : World) c table r p :
  RequestTask.encode r = Ret p →
  pid_fits r = true →
  _DB w = Some c →
  files w !! conn c = Some {| rest_tasks := Some table |} →
  ∃ row tr,
    row_of_payload p = Ok row
    ∧ no_lock_acquire tr = true
    ∧ run (_dump_request_no_lock r) w
      = (Returned (),
         set_files (<[conn c := {| rest_tasks :=
                                     Some (<[RequestTask.request_id r := row]>
                                             table) |}]> (files w)) w,
         tr).
Proof.
  intros Hp Hpid Hdb Hc.
  destruct (encode_keeps r p Hp) as [Hid Hpp].
  destruct (row_of_payload p) as [row|] eqn:Hrow; [|discriminate Hrow].
  exists row, [GetDB; Execute c (InsertOrReplace row)].
  split; [reflexivity|]. split; [reflexivity|].
  unfold _dump_request_no_lock, RequestTask.to_row. rewrite Hp.
  unfold mbind, prog_mbind. cbn [prog_bind lift]. rewrite Hrow.
  injection Hrow as <-.
  simpl. rewrite Hdb. simpl. rewrite Hc. simpl.
  rewrite Hid, Hpp. unfold pid_fits in Hpid.
  destruct (RequestTask.pid r) as [z|]; simpl; [rewrite Hpid; simpl|]; done.
Qed.

(** A pid outside 64 bits: the insert raises and nothing is written. *)
Lemma run_dump_request_no_lock_overflow (w : World) c table r p :
  RequestTask.encode r = Ret p →
  pid_fits r = false →
  _DB w = Some c →
  files w !! conn c = Some {| rest_tasks := Some table |} →
  ∃ e tr,
    type_name e = "OverflowError"
    ∧ no_lock_acquire tr = true
    ∧ run (_dump_request_no_lock r) w = (Raised e, w, tr).
Proof.
  intros Hp Hpid Hdb Hc.
  destruct (encode_keeps r p Hp) as [Hid Hpp].
  destruct (row_of_payload p) as [row|] eqn:Hrow; [|discriminate Hrow].
  exists (PyObject "OverflowError"
            "Python int too large to convert to SQLite INTEGER"),
    [GetDB; Execute c (InsertOrReplace row)].
  split; [reflexivity|]. split; [reflexivity|].
  unfold _dump_request_no_lock, RequestTask.to_row. rewrite Hp.
  unfold mbind, prog_mbind. cbn [prog_bind lift]. rewrite Hrow.
  injection Hrow as <-.
  simpl. rewrite Hdb. simpl. rewrite Hc. simpl.
  rewrite Hpp. unfold pid_fits in Hpid.
  destruct (RequestTask.pid r) as [z|]; [|done]. simpl. rewrite Hpid.
  simpl. by rewrite (set_files_insert_id w (conn c) _ Hc).
Qed.

(** ** Missing records *)

Lemma filter_not_held (path : string) (l : list string) :
  path ∉ l → filter (λ p, p ≠ path) (path :: l) = l.
Proof.
  intros Hfree. rewrite filter_cons, decide_False by (intros Hne; by apply Hne).
  induction l as [|p l IH]; [done|]. rewrite filter_cons.
  rewrite decide_True by (intros ->; apply Hfree; by left).
  f_equal. apply IH. intros Hin. apply Hfree. by right.
Qed.

Lemma run_get_request (w : World) (request_id : string) :
  store_ok w → request_lock_path request_id ∉ held_locks w →
  ∃ w' tr,
    run (get_request request_id) w
    = (match lock_path_error (request_lock_path request_id) with
       | Some e => Raised e
       | None =>
           match visible_rows w !! request_id with
           | None => Returned None
           | Some row =>
               match RequestTask.from_row row with
               | Ok t => Returned (Some t)
               | Err e => Raised e
               end
           end
       end, w', tr)
    ∧ (_DB w = None → existsb is_create_table tr = true)
    ∧ visible_rows w' = visible_rows w
    ∧ held_locks w' = held_locks w
    ∧ store_ok w'.
Proof.
  intros Hok Hfree. unfold get_request.
  destruct (run_init_db
              (with_FileLock (request_lock_path request_id)
                             (_get_rest_task_no_lock request_id)) w Hok)
    as (tr1 & _ & _ & Hct & ->).
  destruct (ready_facts w Hok) as (c & Hdb & Hc & Hheld).
  destruct (lock_path_error (request_lock_path request_id)) as [e|] eqn:Hname.
  - rewrite (run_with_FileLock_unusable _ _ _ e) by (by rewrite ?Hheld).
    eexists _, _. split; [reflexivity|]. split.
    { intros Hnone. rewrite existsb_app, (Hct Hnone). done. }
    split; [by apply ready_visible_rows|]. split; [done|].
    pose proof (ready_store_ok w (held_locks (ready w)) Hok) as Hs.
    by destruct (ready w).
  - rewrite run_with_FileLock by (by rewrite ?Hheld).
    rewrite (run_get_rest_task_no_lock _ c (visible_rows w)); [|done|done].
    set (o := match visible_rows w !! request_id with
              | Some row => _
              | None => _
              end).
    assert (Ho : o ≠ Blocked).
    { unfold o. destruct (visible_rows w !! request_id) as [row|]; [|done].
      by destruct (RequestTask.from_row row). }
    eexists _, _. split; [by destruct o|]. split.
    + intros Hnone. rewrite existsb_app, (Hct Hnone). done.
    + simpl. rewrite filter_not_held by (by rewrite Hheld).
      rewrite Hheld. split; [|split; [done|]].
      * change (visible_rows (ready w) = visible_rows w).
        by apply ready_visible_rows.
      * change (store_ok (set_held_locks (held_locks w) (ready w))).
        by apply ready_store_ok.
Qed.


(** ** Updates *)

Lemma run_update_rest_task_missing (w : World) (request_id : string)
    (block : with_block) :
  store_ok w →
  visible_rows w !! request_id = None →
  ∃ w' tr,
    run (update_rest_task request_id block) w
    = (match on_none block with
       | Ok _ => Returned ()
       | Err e => Raised e
       end, w', tr)
    ∧ no_insert tr = true
    ∧ visible_rows w' = visible_rows w.
Proof.
  intros Hok Hnone. unfold update_rest_task.
  destruct (run_init_db
              (rest_task ← _get_rest_task_no_lock request_id;
               rest_task ← yield_to block rest_task;
               match rest_task with
               | Some t => _dump_request_no_lock t
               | None => Ret ()
               end) w Hok) as (tr1 & Hni & _ & _ & ->).
  destruct (ready_facts w Hok) as (c & Hdb & Hc & _).
  rewrite run_bind.
  rewrite (run_get_rest_task_no_lock _ c (visible_rows w)); [|done|done].
  rewrite Hnone. cbv iota beta. unfold yield_to. rewrite !run_bind, run_lift.
  unfold no_insert in *.
  destruct (on_none block) as [[]|e]; simpl; eexists _, _;
    rewrite forallb_app, Hni; (split; [done|]); (split; [done|]);
    by apply ready_visible_rows.
Qed.

(** C6: where the store is in order and holds no record for the request
    id, [update_rest_task] ends as its block ends, performs no insert, and
    leaves the rows of the store as they were: those the process sees,
    and those of every database file. *)
Theorem update_rest_task_missing (w : World) (request_id : string)
    (block : with_block) :
  store_ok w →
  visible_rows w !! request_id = None →
  let '(o, w', tr) := run (update_rest_task request_id block) w in
  o = match on_none block with
      | Ok _ => Returned ()
      | Err e => Raised e
      end
  ∧ no_insert tr = true
  ∧ visible_rows w' = visible_rows w
  ∧ ∀ i, rows_at w' i = rows_at w i.
Proof.
  intros Hok Hnone.
  destruct (run_update_rest_task_missing w request_id block Hok Hnone)
    as (w' & tr & Hrun & Hni & Hrows).
  rewrite Hrun. repeat split; try done.
  intros i. by eapply run_rows_at.
Qed.

Lemma never_locks_run {A} (p : prog A) (w : World) :
  never_locks p → no_lock_acquire (run p w).2 = true.
Proof.
  intros Hp. revert w. induction Hp as [a | e | a k Ha Hk IH]; intros w;
    [done | done |].
  simpl. destruct (exec a w) as [[r w']|]; [|done].
  specialize (IH r w'). destruct (run (k r) w') as [[o w''] tr].
  unfold no_lock_acquire in *. simpl in *. by rewrite Ha.
Qed.

Lemma never_locks_bind {A B} (m : prog A) (f : A → prog B) :
  never_locks m → (∀ a, never_locks (f a)) → never_locks (m ≫= f).
Proof.
  intros Hm Hf. unfold mbind, prog_mbind.
  induction Hm as [a | e | a k Ha Hk IH]; simpl.
  - apply Hf.
  - constructor.
  - by constructor.
Qed.

Lemma never_locks_lift {A} (r : result A) : never_locks (lift r).
Proof. destruct r; constructor. Qed.

Lemma never_locks_perform (a : action) :
  is_lock_acquire a = false → never_locks (perform a).
Proof. intros Ha. constructor; [done|]. intros [b|e]; constructor. Qed.

Ltac never_locks_perform_tac :=
  match goal with
  | |- never_locks (perform ?a) => exact (never_locks_perform a eq_refl)
  end.

Lemma never_locks_try_except {A} (body : prog A) cls handler :
  never_locks body → (∀ e, never_locks (handler e)) →
  never_locks (try_except body cls handler).
Proof.
  intros Hb Hh. induction Hb as [a | e | a k Ha Hk IH]; simpl.
  - constructor.
  - destruct (String.eqb (type_name e) cls); [apply Hh | constructor].
  - by constructor.
Qed.

Lemma never_locks_init_db {A} (p : prog A) :
  never_locks p → never_locks (init_db p).
Proof.
  intros Hp. unfold init_db.
  apply never_locks_bind; [never_locks_perform_tac|]. intros [c|].
  - apply never_locks_bind; [constructor | done].
  - apply never_locks_bind; [|done].
    apply never_locks_bind; [|intros c; never_locks_perform_tac].
    unfold SQLiteConn_new.
    apply never_locks_bind; [never_locks_perform_tac|]. intros c.
    apply never_locks_bind; [|constructor].
    unfold create_table.
    apply never_locks_bind; [exact (never_locks_perform IsWsl eq_refl)|].
    intros wsl.
    apply never_locks_bind; [|intros _; never_locks_perform_tac].
    destruct wsl; cbn [negb]; [constructor|].
    apply never_locks_try_except; [never_locks_perform_tac|].
    intros e. destruct (negb _); constructor.
Qed.

Lemma never_locks_get_rest_task_no_lock request_id :
  never_locks (_get_rest_task_no_lock request_id).
Proof.
  unfold _get_rest_task_no_lock.
  apply never_locks_bind; [never_locks_perform_tac|]. intros [c|];
    [|constructor].
  apply never_locks_bind; [never_locks_perform_tac|]. intros [row|];
    [|constructor].
  apply never_locks_bind; [apply never_locks_lift | constructor].
Qed.

Lemma never_locks_dump_request_no_lock t :
  never_locks (_dump_request_no_lock t).
Proof.
  unfold _dump_request_no_lock, RequestTask.to_row.
  apply never_locks_bind.
  - apply never_locks_bind; [|intros p; apply never_locks_lift].
    unfold RequestTask.encode.
    apply never_locks_try_except; [apply never_locks_lift|]. intros e.
    apply never_locks_bind; [never_locks_perform_tac | constructor].
  - intros row. apply never_locks_bind; [never_locks_perform_tac|].
    intros [c|]; [never_locks_perform_tac | constructor].
Qed.

(** [update_rest_task] never acquires a lock, in any world and for any
    block. *)
Lemma update_rest_task_never_locks request_id block :
  never_locks (update_rest_task request_id block).
Proof.
  unfold update_rest_task. apply never_locks_init_db.
  apply never_locks_bind; [apply never_locks_get_rest_task_no_lock|].
  intros rest_task. apply never_locks_bind.
  - unfold yield_to. destruct rest_task as [t|].
    + apply never_locks_bind; [apply never_locks_lift | constructor].
    + apply never_locks_bind; [apply never_locks_lift | constructor].
  - intros [t|]; [apply never_locks_dump_request_no_lock | constructor].
Qed.

(** C1: [update_rest_task] performs no lock acquisition, and so two
    callers can overlap: on the stored [example_task], the caller that
    marks the task as running reads, the caller that records the pid runs
    from its read to its write, and the first caller writes last.  Both
    calls end normally, the stored record is running but has no pid,
    while either order of the two calls one after the other stores a
    record that is running and has pid 123. *)
Theorem update_rest_task_lost_update :
  (∀ request_id block w,
     no_lock_acquire (run (update_rest_task request_id block) w).2 = true)
  ∧ (let '(pool, w) :=
       interleave overlapping_schedule concurrent_updates world_with_task in
     pool = [Ret (); Ret ()]
     ∧ stored_task w "r1"
       = Returned (Some (RequestTask.mk "r1" "echo" "sky.launch"
                           (PDict [(PStr "x", PInt 1)]) RUNNING PNone PNone
                           None)))
  ∧ stored_task
      (run (update_rest_task "r1" mark_running ;;
            update_rest_task "r1" record_pid) world_with_task).1.2 "r1"
    = Returned (Some (RequestTask.mk "r1" "echo" "sky.launch"
                        (PDict [(PStr "x", PInt 1)]) RUNNING PNone PNone
                        (Some 123)))
  ∧ stored_task
      (run (update_rest_task "r1" record_pid ;;
            update_rest_task "r1" mark_running) world_with_task).1.2 "r1"
    = Returned (Some (RequestTask.mk "r1" "echo" "sky.launch"
                        (PDict [(PStr "x", PInt 1)]) RUNNING PNone PNone
                        (Some 123))).
Proof.
  split.
  - intros request_id block w. apply never_locks_run.
    apply update_rest_task_never_locks.
  - split; [|split]; by vm_compute.
Qed.

(** ** Writing, and reading back *)

(** [encode] either produces a payload, or raises an error of
    [json.dumps], after its diagnostic if that is a [TypeError]. *)
Lemma encode_cases (r : RequestTask.t) :
  (∃ p, RequestTask.encode r = Ret p)
  ∨ (∃ e, encoding_error e
          ∧ ∀ w, run (RequestTask.encode r) w
                 = (Raised e, w, encode_printed r e)).
Proof.
  destruct (request_body ← json_dumps (RequestTask.request_body r);
            return_value ← json_dumps (RequestTask.return_value r);
            error ← json_dumps (RequestTask.error r);
            Ok (RequestTaskPayload.mk
                  (RequestTask.request_id r) (RequestTask.name r)
                  (RequestTask.entrypoint r)
                  request_body (RequestStatus_value (RequestTask.status r))
                  return_value error (RequestTask.pid r))) as [p|e] eqn:E.
  - left. exists p. unfold RequestTask.encode. by rewrite E.
  - right. exists e.
    assert (Hty : encoding_error e).
    { destruct (json_dumps (RequestTask.request_body r)) as [tb|eb] eqn:Eb;
        [|injection E as <-; by eapply json_dumps_error_type].
      destruct (json_dumps (RequestTask.return_value r)) as [tv|ev] eqn:Ev;
        [|injection E as <-; by eapply json_dumps_error_type].
      destruct (json_dumps (RequestTask.error r)) as [te|ee] eqn:Ee;
        [|injection E as <-; by eapply json_dumps_error_type].
      discriminate E. }
    split; [done|]. intros w. unfold encode_printed.
    destruct (String.eqb_spec (type_name e) "TypeError") as [Ht|Ht].
    + by apply run_encode_raises.
    + by apply run_encode_raises_other.
Qed.

Lemma no_insert_encode_printed (r : RequestTask.t) (e : pyobject) :
  no_insert (encode_printed r e) = true.
Proof. unfold encode_printed. by destruct (String.eqb _ _). Qed.

Lemma run_dump_request_no_lock_raises (r : RequestTask.t) (e : pyobject)
    (w : World) (tr : list action) :
  run (RequestTask.encode r) w = (Raised e, w, tr) →
  run (_dump_request_no_lock r) w = (Raised e, w, tr).
Proof.
  intros He. unfold _dump_request_no_lock, RequestTask.to_row.
  by rewrite !run_bind, He.
Qed.

Lemma ready_platform (w : World) :
  on_wsl (ready w) = on_wsl w
  ∧ journal_mode_error (ready w) = journal_mode_error w.
Proof.
  unfold ready. destruct (_DB w); [done|].
  unfold initialised. destruct (connected w) as [i w0] eqn:E.
  assert (on_wsl w0 = on_wsl w
          ∧ journal_mode_error w0 = journal_mode_error w) as [<- <-].
  { unfold connected in E. destruct (db_file w); by injection E as <- <-. }
  unfold with_table. by destruct (files w0 !! i).
Qed.

Lemma ready_eta (w : World) :
  store_ok w → store_ok (ready w).
Proof.
  intros Hok.
  pose proof (ready_store_ok w (held_locks (ready w)) Hok) as Hs.
  by destruct (ready w).
Qed.

(** What [dump_reqest] does where nobody holds the lock of the record: it
    writes the row, or it raises and leaves the rows as they were. *)
Lemma run_dump_reqest_any (w : World) (r : RequestTask.t) :
  store_ok w →
  request_lock_path (RequestTask.request_id r) ∉ held_locks w →
  ∃ o w' tr,
    run (dump_reqest r) w = (o, w', tr)
    ∧ (_DB w = None → existsb is_create_table tr = true)
    ∧ held_locks w' = held_locks w
    ∧ store_ok w'
    ∧ _DB w' = _DB (ready w) ∧ db_file w' = db_file (ready w)
    ∧ on_wsl w' = on_wsl w ∧ journal_mode_error w' = journal_mode_error w
    ∧ ((∃ p row,
          lock_path_error (request_lock_path (RequestTask.request_id r))
          = None
          ∧ RequestTask.encode r = Ret p ∧ pid_fits r = true
          ∧ row_of_payload p = Ok row
          ∧ o = Returned ()
          ∧ visible_rows w'
            = <[RequestTask.request_id r := row]> (visible_rows w))
       ∨ (∃ e, o = Raised e ∧ visible_rows w' = visible_rows w
               ∧ ((lock_path_error
                     (request_lock_path (RequestTask.request_id r)) = Some e
                   ∧ no_insert tr = true)
                  ∨ (lock_path_error
                       (request_lock_path (RequestTask.request_id r)) = None
                     ∧ existsb is_lock_acquire tr = true
                     ∧ ((encoding_error e
                         ∧ (∀ p, RequestTask.encode r ≠ Ret p)
                         ∧ no_insert tr = true)
                        ∨ (type_name e = "OverflowError"
                           ∧ pid_fits r = false
                           ∧ ∃ p, RequestTask.encode r = Ret p)))))).
Proof.
  intros Hok Hfree. unfold dump_reqest.
  destruct (run_init_db
              (with_FileLock (request_lock_path (RequestTask.request_id r))
                             (_dump_request_no_lock r)) w Hok)
    as (tr1 & Hni1 & _ & Hct & ->).
  destruct (ready_facts w Hok) as (c & Hdb & Hc & Hheld).
  destruct (ready_platform w) as [Hwsl Hje].
  assert (Hcreate : ∀ tr, _DB w = None →
                          existsb is_create_table (tr1 ++ tr) = true).
  { intros tr Hnone. by rewrite existsb_app, (Hct Hnone). }
  destruct (lock_path_error (request_lock_path (RequestTask.request_id r)))
    as [e|] eqn:Hname.
  { rewrite (run_with_FileLock_unusable _ _ _ e) by (by rewrite ?Hheld).
    eexists _, _, _. split; [reflexivity|]. split; [apply Hcreate|].
    split; [done|]. split; [by apply ready_eta|]. do 4 (split; [done|]).
    right. exists e. split; [done|]. split; [by apply ready_visible_rows|].
    left. split; [done|]. unfold no_insert in *.
    by rewrite forallb_app, Hni1. }
  rewrite run_with_FileLock by (by rewrite ?Hheld).
  set (w1 := set_held_locks
               (request_lock_path (RequestTask.request_id r)
                :: held_locks (ready w)) (ready w)).
  assert (Hacq : ∀ tr tr',
             existsb is_lock_acquire
               (tr1 ++ LockAcquire (request_lock_path
                                      (RequestTask.request_id r))
                       :: tr ++ tr') = true).
  { intros tr tr'. rewrite existsb_app. simpl. by rewrite orb_true_r. }
  destruct (encode_cases r) as [[p Hp] | (e & Hty & He)].
  - destruct (pid_fits r) eqn:Hpid.
    + destruct (run_dump_request_no_lock w1 c (visible_rows w) r p Hp Hpid
                  Hdb Hc) as (row & tr & Hrow & _ & ->).
      eexists _, _, _. split; [reflexivity|]. split; [apply Hcreate|].
      simpl. rewrite filter_not_held by (by rewrite Hheld).
      split; [done|]. split; [|split; [done|split; [done|split; [done|]]]].
      * pose proof (ready_store_ok w (held_locks w) Hok) as (H1 & H2 & H3).
        simpl in H1, H2, H3. unfold store_ok. simpl.
        split; [|split; [|done]].
        -- intros c' Hc'. rewrite Hdb in Hc'. injection Hc' as <-.
           rewrite list_lookup_insert_eq by (by eapply lookup_lt_Some).
           by eexists.
        -- intros i Hi. destruct (H2 i Hi) as [db Hdbi].
           destruct (decide (conn c = i)) as [<-|Hne].
           ++ rewrite list_lookup_insert_eq by (by eapply lookup_lt_Some).
              done.
           ++ rewrite list_lookup_insert_ne by done. done.
      * split; [done|]. left. exists p, row. repeat split; try done.
        unfold visible_rows at 1, open_file, rows_at. simpl. rewrite Hdb.
        rewrite list_lookup_insert_eq by (by eapply lookup_lt_Some). done.
    + destruct (run_dump_request_no_lock_overflow w1 c (visible_rows w) r p
                  Hp Hpid Hdb Hc) as (e & tr & Hty & _ & ->).
      eexists _, _, _. split; [reflexivity|]. split; [apply Hcreate|].
      simpl. rewrite filter_not_held by (by rewrite Hheld).
      split; [done|]. split; [by apply ready_store_ok|].
      do 4 (split; [done|]). right. exists e. split; [done|].
      split; [change (visible_rows (ready w) = visible_rows w);
              by apply ready_visible_rows|].
      right. split; [done|]. split; [apply (Hacq tr [_])|]. right.
      split; [done|]. split; [done|]. by exists p.
  - rewrite (run_dump_request_no_lock_raises r e _ _ (He _)).
    eexists _, _, _. split; [reflexivity|]. split; [apply Hcreate|].
    simpl. rewrite filter_not_held by (by rewrite Hheld).
    split; [done|]. split; [by apply ready_store_ok|].
    do 4 (split; [done|]). right. exists e. split; [done|].
    split; [change (visible_rows (ready w) = visible_rows w);
            by apply ready_visible_rows|].
    right. split; [done|]. split; [apply (Hacq _ [_])|]. left.
    split; [done|]. split.
    + intros p Hp. specialize (He w). rewrite Hp in He. discriminate He.
    + unfold no_insert in *. rewrite forallb_app, Hni1. simpl.
      rewrite forallb_app. fold (no_insert (encode_printed r e)).
      by rewrite no_insert_encode_printed.
Qed.

(** Writing a record that encodes and whose pid fits. *)
Lemma run_dump_reqest (w : World) (r : RequestTask.t) p :
  store_ok w →
  lock_free w (request_lock_path (RequestTask.request_id r)) →
  RequestTask.encode r = Ret p →
  pid_fits r = true →
  ∃ row w' tr,
    row_of_payload p = Ok row
    ∧ run (dump_reqest r) w = (Returned (), w', tr)
    ∧ (_DB w = None → existsb is_create_table tr = true)
    ∧ visible_rows w' = <[RequestTask.request_id r := row]> (visible_rows w)
    ∧ held_locks w' = held_locks w
    ∧ store_ok w'
    ∧ _DB w' = _DB (ready w) ∧ db_file w' = db_file (ready w)
    ∧ on_wsl w' = on_wsl w ∧ journal_mode_error w' = journal_mode_error w.
Proof.
  intros Hok (Hname & Hfree & _) Hp Hpid.
  destruct (run_dump_reqest_any w r Hok Hfree)
    as (o & w' & tr & Hrun & Hct & Hheld & Hok' & HDB & Hfile & Hwsl & Hje
        & Hcases).
  destruct Hcases as [(p' & row & _ & Hp' & _ & Hrow & -> & Hrows)
                     | (e & _ & _ & [[Hn _] | (_ & _ & [(_ & Hno & _)
                                                        | (_ & Hpid' & _)])])].
  - rewrite Hp in Hp'. injection Hp' as <-.
    exists row, w', tr. by repeat (split; [done|]).
  - congruence.
  - by destruct (Hno p).
  - congruence.
Qed.

Lemma run_reset_db (w : World) :
  run reset_db w = (Returned (), set_db_file None w,
                    [RemoveFileIfExists _DB_PATH]).
Proof. reflexivity. Qed.

(** A stored record that was encodable is read back as it was. *)
Lemma from_row_of_encoded (r : RequestTask.t) p row :
  RequestTask.encode r = Ret p → RequestTask.decode p = Ok r →
  row_of_payload p = Ok row → RequestTask.from_row row = Ok r.
Proof.
  intros _ Hdec Hrow. unfold RequestTask.from_row.
  pose proof (payload_of_row_of_payload p) as Hp. rewrite Hrow in Hp.
  simpl in Hp. by rewrite Hp.
Qed.

(** C2: the claim fails on the code.  [reset_db] removes the file and
    leaves the global [_DB] as it is, and [init_db] creates the table only
    where [_DB] is unset.  In the process that stored [example_task], the
    connection stays open on the removed file across [reset_db]: the next
    [get_request] creates no table and returns the record, where the
    claim has it return what stands for not found. *)
Theorem reset_keeps_open_connection :
  let w1 := (run reset_db world_with_task).1.2 in
  db_file w1 = None
  ∧ stored_task w1 "r1" = Returned (Some example_task)
  ∧ existsb is_create_table (run (get_request "r1") w1).2 = false.
Proof. by vm_compute. Qed.

Lemma store_ok_fresh_world : store_ok fresh_world.
Proof. repeat split; discriminate. Qed.

Lemma store_ok_world_with_task : store_ok world_with_task.
Proof.
  split; [|split].
  - intros c [= <-]. by eexists.
  - intros i [= <-]. by eexists.
  - discriminate.
Qed.

Lemma lock_free_nil (w : World) (path : string) :
  held_locks w = [] → lock_path_error path = None → lock_free w path.
Proof.
  intros Hnil Hname. unfold lock_free. rewrite Hnil.
  split; [done|]. split; [apply not_elem_of_nil | constructor].
Qed.



Lemma update_rest_task_missing_witness :
  visible_rows world_with_task !! "r2" = None
  ∧ let '(o, w', tr) :=
      run (update_rest_task "r2" mark_running) world_with_task in
    o = Returned () ∧ no_insert tr = true
    ∧ visible_rows w' = visible_rows world_with_task
    ∧ ∀ i, rows_at w' i = rows_at world_with_task i.
Proof.
  assert (Hrow : visible_rows world_with_task !! "r2" = None)
    by (by vm_compute).
  split; [exact Hrow|].
  apply (update_rest_task_missing world_with_task "r2" mark_running);
    [exact store_ok_world_with_task | exact Hrow].
Defined.


(** * Further properties *)

(** ** Status values *)

(** X1: [RequestStatus(value)] succeeds exactly on the value of a
    member, and then returns that member; any other text, a value in
    another case for one, raises. *)
Theorem RequestStatus_of_value_iff (v : string) (s : RequestStatus) :
  RequestStatus_of_value v = Ok s ↔ v = RequestStatus_value s.
Proof.
  split; [|intros ->; apply RequestStatus_of_value_value].
  unfold RequestStatus_of_value, RequestStatus_members.
  cbn [find RequestStatus_value].
  repeat match goal with
         | |- context [String.eqb ?a v] =>
             destruct (String.eqb_spec a v) as [<-|?]
         end; intros Hs; try discriminate Hs;
    by injection Hs as <-.
Qed.

(** ** Rows *)

Lemma row_of_payload_columns (p : RequestTaskPayload.t) :
  row_of_payload p
  = Ok [SqlText (RequestTaskPayload.request_id p);
        SqlText (RequestTaskPayload.name p);
        SqlText (RequestTaskPayload.entrypoint p);
        SqlText (RequestTaskPayload.request_body p);
        SqlText (RequestTaskPayload.status p);
        SqlText (RequestTaskPayload.return_value p);
        SqlText (RequestTaskPayload.error p);
        match RequestTaskPayload.pid p with
        | Some z => SqlInt z
        | None => SqlNull
        end].
Proof. reflexivity. Qed.

Lemma encode_request_id (r : RequestTask.t) p :
  RequestTask.encode r = Ret p →
  RequestTaskPayload.request_id p = RequestTask.request_id r.
Proof.
  unfold RequestTask.encode. intros Hp.
  destruct (json_dumps (RequestTask.request_body r)); [|simpl in Hp;
    destruct (String.eqb _ _); simpl in Hp; discriminate Hp].
  destruct (json_dumps (RequestTask.return_value r)); [|simpl in Hp;
    destruct (String.eqb _ _); simpl in Hp; discriminate Hp].
  destruct (json_dumps (RequestTask.error r)); [|simpl in Hp;
    destruct (String.eqb _ _); simpl in Hp; discriminate Hp].
  simpl in Hp. by injection Hp as <-.
Qed.

(** X2: a record with JSON-native fields becomes a row of eight columns
    with the request id in the first one, and [from_row] turns that row
    back into the record. *)
Theorem to_row_from_row (r : RequestTask.t) :
  json_native (RequestTask.request_body r) = true →
  json_native (RequestTask.return_value r) = true →
  json_native (RequestTask.error r) = true →
  ∃ row, RequestTask.to_row r = Ret row
         ∧ length row = 8%nat
         ∧ row !! 0%nat = Some (SqlText (RequestTask.request_id r))
         ∧ RequestTask.from_row row = Ok r.
Proof.
  intros Hb Hv He.
  destruct (encode_decode_native r Hb Hv He) as (p & Hp & Hdec).
  eexists. split; [|split; [|split]].
  - unfold RequestTask.to_row. rewrite Hp. unfold mbind, prog_mbind.
    cbn [prog_bind]. rewrite row_of_payload_columns. reflexivity.
  - reflexivity.
  - simpl. by rewrite (encode_request_id r p Hp).
  - eapply from_row_of_encoded; [done|done|]. apply row_of_payload_columns.
Qed.

Lemma to_row_from_row_witness :
  json_native (RequestTask.request_body example_task) = true
  ∧ ∃ row, RequestTask.to_row example_task = Ret row
           ∧ length row = 8%nat
           ∧ row !! 0%nat = Some (SqlText "r1")
           ∧ RequestTask.from_row row = Ok example_task.
Proof.
  split; [reflexivity|].
  apply (to_row_from_row example_task); reflexivity.
Defined.

(** X3: a row with fewer than eight columns makes [from_row] raise
    [TypeError], and columns after the eighth are ignored. *)
Theorem from_row_column_count (row extra : Row) :
  ((length row < 8)%nat →
   ∃ e, RequestTask.from_row row = Err e ∧ type_name e = "TypeError")
  ∧ (length row = 8%nat →
     RequestTask.from_row (row ++ extra) = RequestTask.from_row row).
Proof.
  split.
  - intros Hlen. unfold RequestTask.from_row, payload_of_row.
    do 8 (try (destruct row as [|[| ? | ?] row];
               try (simpl; eexists; split; reflexivity))).
    all: simpl in Hlen; lia.
  - intros Hlen. unfold RequestTask.from_row, payload_of_row.
    do 8 (destruct row as [|? row]; [discriminate Hlen|]).
    destruct row; [|discriminate Hlen]. reflexivity.
Qed.

Lemma from_row_column_count_witness :
  (length [SqlText "r1"; SqlText "echo"] < 8)%nat
  ∧ (∃ e, RequestTask.from_row [SqlText "r1"; SqlText "echo"] = Err e
          ∧ type_name e = "TypeError")
  ∧ RequestTask.from_row (corrupt_row ++ [SqlNull])
    = RequestTask.from_row corrupt_row.
Proof.
  split; [simpl; lia|]. split.
  - apply (proj1 (from_row_column_count [SqlText "r1"; SqlText "echo"] [])).
    simpl. lia.
  - apply (proj2 (from_row_column_count corrupt_row [SqlNull])).
    reflexivity.
Defined.

(** ** Computations that never perform some kind of action *)

Lemma never_run {A} (P : action → bool) (p : prog A) (w : World) :
  never P p → trace_without P (run p w).2 = true.
Proof.
  intros Hp. revert w. induction Hp as [a | e | a k Ha Hk IH]; intros w;
    [done | done |].
  simpl. destruct (exec a w) as [[r w']|]; [|done].
  specialize (IH r w'). destruct (run (k r) w') as [[o w''] tr].
  unfold trace_without in *. simpl in *. by rewrite Ha.
Qed.

Lemma never_bind {A B} (P : action → bool) (m : prog A) (f : A → prog B) :
  never P m → (∀ a, never P (f a)) → never P (m ≫= f).
Proof.
  intros Hm Hf. unfold mbind, prog_mbind.
  induction Hm as [a | e | a k Ha Hk IH]; simpl.
  - apply Hf.
  - constructor.
  - by constructor.
Qed.

Lemma never_lift {A} (P : action → bool) (r : result A) : never P (lift r).
Proof. destruct r; constructor. Qed.

Lemma never_perform (P : action → bool) (a : action) :
  P a = false → never P (perform a).
Proof. intros Ha. constructor; [done|]. intros [b|e]; constructor. Qed.

Ltac never_perform_tac :=
  match goal with
  | |- never ?P (perform ?a) =>
      apply (never_perform P a); first [reflexivity | eauto]
  end.

Lemma never_try_except {A} (P : action → bool) (body : prog A) cls handler :
  never P body → (∀ e, never P (handler e)) →
  never P (try_except body cls handler).
Proof.
  intros Hb Hh. induction Hb as [a | e | a k Ha Hk IH]; simpl.
  - constructor.
  - destruct (String.eqb (type_name e) cls); [apply Hh | constructor].
  - by constructor.
Qed.

(** Initialisation reads and writes no row and takes no lock. *)
Lemma never_init_only (P : action → bool) :
  P GetDB = false → P IsWsl = false → P (Connect _DB_PATH) = false →
  (∀ c, P (SetDB c) = false) →
  (∀ c, P (Execute c PragmaJournalModeWAL) = false) →
  (∀ c, P (Execute c CreateTableIfNotExists) = false) →
  never P init_only.
Proof.
  intros HG HW HC HS HP HT. unfold init_only, init_db.
  apply never_bind; [never_perform_tac|]. intros [c|].
  - apply never_bind; constructor.
  - apply never_bind; [|constructor].
    apply never_bind; [|intros c; never_perform_tac].
    unfold SQLiteConn_new.
    apply never_bind; [never_perform_tac|]. intros c.
    apply never_bind; [|constructor].
    unfold create_table, is_wsl.
    apply never_bind; [never_perform_tac|]. intros wsl.
    apply never_bind; [|intros _; never_perform_tac].
    destruct wsl; cbn [negb]; [constructor|].
    apply never_try_except; [never_perform_tac|].
    intros e. destruct (negb _); constructor.
Qed.

(** [init_db] around a function is the initialisation followed by the
    function. *)
Lemma run_init_db_split {A} (p : prog A) (w : World) :
  run (init_db p) w
  = match run init_only w with
    | (Returned _, w1, tr1) =>
        let '(o, w', tr) := run p w1 in (o, w', tr1 ++ tr)
    | (Raised e, w1, tr1) => (Raised e, w1, tr1)
    | (Blocked, w1, tr1) => (Blocked, w1, tr1)
    end.
Proof.
  unfold init_only, init_db. rewrite !run_bind. simpl run at 1.
  simpl run at 2. cbv iota beta. rewrite !run_bind.
  destruct (run match _DB w with
                | Some _ => Ret ()
                | None => _
                end w) as [[[[] | e |] w1] tr1]; try done.
  simpl. destruct (run p w1) as [[o w'] tr]. by rewrite app_nil_r.
Qed.

(** In a store that is in order the initialisation succeeds, and what it
    performs touches no row and takes no lock. *)
Lemma run_init_only (w : World) :
  store_ok w →
  ∃ tr1, run init_only w = (Returned (), ready w, tr1)
         ∧ trace_without touches_rows tr1 = true
         ∧ trace_without is_lock_acquire tr1 = true
         ∧ (is_Some (_DB w) → tr1 = [GetDB]).
Proof.
  intros Hok.
  destruct (run_init_db (Ret ()) w Hok) as (tr1 & _ & _ & _ & Hrun).
  cbn [run] in Hrun. rewrite app_nil_r in Hrun. exists tr1.
  split; [exact Hrun|]. split; [|split].
  - change tr1 with (Returned (), ready w, tr1).2.
    unfold init_only. rewrite <- Hrun. by apply never_run, never_init_only.
  - change tr1 with (Returned (), ready w, tr1).2.
    unfold init_only. rewrite <- Hrun. by apply never_run, never_init_only.
  - intros [c Hc]. unfold init_only in Hrun.
    rewrite (run_init_db_ready _ w c Hc) in Hrun. cbn [run] in Hrun.
    by injection Hrun as _ <-.
Qed.

Lemma run_with_FileLock_held {A} (path : string) (body : prog A) (w : World) :
  path ∈ held_locks w →
  run (with_FileLock path body) w = (Blocked, w, []).
Proof.
  intros Hheld. unfold with_FileLock. rewrite run_bind, run_perform.
  simpl exec. by rewrite bool_decide_eq_true_2.
Qed.

Lemma never_try_finally {A} (P : action → bool) (body : prog A)
    (cleanup : prog unit) :
  never P body → never P cleanup → never P (try_finally body cleanup).
Proof.
  intros Hb Hc. induction Hb as [a | e | a k Ha Hk IH]; simpl.
  - apply never_bind; [done|]. constructor.
  - apply never_bind; [done|]. constructor.
  - by constructor.
Qed.

Lemma never_with_FileLock {A} (P : action → bool) (path : string)
    (body : prog A) :
  P (LockAcquire path) = false → P (LockRelease path) = false →
  never P body → never P (with_FileLock path body).
Proof.
  intros Ha Hr Hb. unfold with_FileLock.
  apply never_bind; [never_perform_tac|]. intros _.
  apply never_try_finally; [done|]. never_perform_tac.
Qed.

Lemma never_Act_inv {A} (P : action → bool) (a : action)
    (k : result (reply a) → prog A) :
  never P (Act a k) → P a = false ∧ ∀ r, never P (k r).
Proof.
  intros H.
  refine (match H in never _ p
                return match p with
                       | Act a k => P a = false ∧ ∀ r, never P (k r)
                       | _ => True
                       end
          with
          | never_Ret _ _ => I
          | never_Raise _ _ => I
          | never_Act _ _ _ Ha Hk => conj Ha Hk
          end).
Qed.

Lemma never_bind_inv {A B} (P : action → bool) (m : prog A)
    (f : A → prog B) :
  never P (m ≫= f) → never P m.
Proof.
  unfold mbind, prog_mbind. induction m as [a | e | a k IH]; simpl.
  - constructor.
  - constructor.
  - intros Hm. apply never_Act_inv in Hm as [Ha Hk].
    constructor; [done|]. intros r. apply IH, Hk.
Qed.

Lemma never_init_db {A} (P : action → bool) (p : prog A) :
  never P init_only → never P p → never P (init_db p).
Proof.
  unfold init_only, init_db. intros Hi Hp.
  unfold mbind, prog_mbind in Hi. cbn [prog_bind perform] in Hi.
  apply never_Act_inv in Hi as [HG Hk].
  apply never_bind; [never_perform_tac|]. intros db.
  apply never_bind; [|intros ?; exact Hp].
  specialize (Hk (Ok db)). cbn [prog_bind] in Hk.
  exact (never_bind_inv P _ _ Hk).
Qed.

(** Only a lock makes a caller wait. *)
Lemma exec_is_Some (a : action) (w : World) :
  is_lock_acquire a = false → is_Some (exec a w).
Proof.
  intros Ha. destruct (exec a w) as [rw|] eqn:He; [done|]. exfalso.
  destruct a; try discriminate Ha; simpl in He;
    repeat (match type of He with
            | context [match ?x with _ => _ end] => destruct x
            end; simpl in He);
    discriminate He.
Qed.

(** A computation that never asks for a lock never waits. *)
Lemma never_locks_not_blocked {A} (p : prog A) (w : World) :
  never is_lock_acquire p → (run p w).1.1 ≠ Blocked.
Proof.
  intros Hp. revert w. induction Hp as [a | e | a k Ha Hk IH]; intros w;
    [done | done |].
  simpl. destruct (exec_is_Some a w Ha) as [[r w'] ->].
  specialize (IH r w'). by destruct (run (k r) w') as [[o w''] tr].
Qed.

(** ** Creating the table *)

Lemma run_Act_trace {A} (a : action) (k : result (reply a) → prog A)
    (w : World) :
  (run (Act a k) w).2
  = match exec a w with
    | Some (r, w') => a :: (run (k r) w').2
    | None => []
    end.
Proof.
  simpl. destruct (exec a w) as [[r w']|]; [|done].
  by destruct (run (k r) w') as [[o w''] tr].
Qed.

(** X4: [create_table] asks the database to enable WAL exactly when the
    platform is not WSL, whatever the state of the database. *)
Theorem create_table_pragma_unless_wsl (c : SQLiteConn) (w : World) :
  existsb is_pragma (run (create_table c) w).2 = negb (on_wsl w).
Proof.
  unfold create_table, is_wsl, mbind, prog_mbind.
  cbn [perform prog_bind]. rewrite run_Act_trace. cbn [exec].
  destruct (on_wsl w); cbn [negb prog_bind existsb is_pragma orb].
  - unfold perform. rewrite run_Act_trace.
    destruct (exec _ w) as [[r w']|]; [|done].
    cbn [existsb is_pragma orb]. by destruct r.
  - unfold perform. cbn [try_except prog_bind]. rewrite run_Act_trace.
    by destruct (exec_is_Some (Execute c PragmaJournalModeWAL) w eq_refl)
      as [[r w'] ->].
Qed.
(** X5: on a platform that is not WSL, when enabling WAL raises an
    [OperationalError], [create_table] goes on to create the table if the
    message contains [database is locked], and otherwise raises that error
    without creating the table. *)
Theorem create_table_journal_mode_error (c : SQLiteConn) (w : World)
    (db : Database) (msg : string) :
  files w !! conn c = Some db →
  on_wsl w = false →
  journal_mode_error w = Some msg →
  let '(o, w', tr) := run (create_table c) w in
  if is_substring "database is locked" msg
  then o = Returned () ∧ w' = with_table (conn c) w
       ∧ existsb is_create_table tr = true
  else o = Raised (OperationalError msg) ∧ w' = w
       ∧ existsb is_create_table tr = false.
Proof.
  intros Hc Hwsl Hje. unfold create_table, is_wsl, with_table.
  rewrite Hc. unfold mbind, prog_mbind. simpl.
  rewrite Hwsl. simpl. rewrite Hc, Hje. simpl.
  destruct (is_substring "database is locked" msg); simpl; [|done].
  rewrite Hc. simpl.
  destruct (rest_tasks db) as [table|] eqn:Et; simpl; [|done].
  by rewrite (database_eta db table Et).
Qed.

Lemma create_table_journal_mode_error_witness :
  let w := (connected world_with_failing_pragma).2 in
  let '(o, w', tr) := run (create_table {| conn := 0 |}) w in
  o = Raised (OperationalError "disk I/O error") ∧ w' = w
  ∧ existsb is_create_table tr = false.
Proof.
  exact (create_table_journal_mode_error {| conn := 0 |}
           (connected world_with_failing_pragma).2
           {| rest_tasks := None |} "disk I/O error"
           eq_refl eq_refl eq_refl).
Defined.

(** X6: when the first access of a process fails because enabling WAL
    raises an error other than a locked database, [init_db] raises that
    error, the decorated function does not run, and [_DB] stays unset, so
    that the next access initialises again. *)
Theorem init_db_journal_mode_failure {A} (p : prog A) (w : World)
    (msg : string) :
  _DB w = None →
  (∀ i, db_file w = Some i → is_Some (files w !! i)) →
  on_wsl w = false →
  journal_mode_error w = Some msg →
  is_substring "database is locked" msg = false →
  run (init_db p) w
  = (Raised (OperationalError msg), (connected w).2,
     [GetDB; Connect _DB_PATH; IsWsl;
      Execute {| conn := (connected w).1 |} PragmaJournalModeWAL])
  ∧ _DB (connected w).2 = None.
Proof.
  intros Hdb Hfile Hwsl Hje Hmsg.
  assert (Hc : ∃ db, files (connected w).2 !! (connected w).1 = Some db).
  { unfold connected. destruct (db_file w) as [i|] eqn:Ef; simpl.
    - by destruct (Hfile i eq_refl) as [db ->]; eexists.
    - rewrite list_lookup_middle by done. by eexists. }
  destruct Hc as [db Hc].
  assert (Hwsl' : on_wsl (connected w).2 = false)
    by (unfold connected; by destruct (db_file w)).
  assert (Hje' : journal_mode_error (connected w).2 = Some msg)
    by (unfold connected; by destruct (db_file w)).
  assert (Hrun : run (create_table {| conn := (connected w).1 |})
                     (connected w).2
                 = (Raised (OperationalError msg), (connected w).2,
                    [IsWsl;
                     Execute {| conn := (connected w).1 |}
                             PragmaJournalModeWAL])).
  { unfold create_table, is_wsl, mbind, prog_mbind. simpl.
    rewrite Hwsl'. simpl. rewrite Hc, Hje'. simpl. by rewrite Hmsg. }
  split; [|unfold connected; by destruct (db_file w)].
  unfold init_db. rewrite !run_bind. simpl run at 1. rewrite Hdb.
  cbv iota beta. rewrite !run_bind. unfold SQLiteConn_new.
  rewrite !run_bind.
  pose proof (run_perform (Connect _DB_PATH) w) as Hconn.
  cbn [reply] in Hconn. rewrite Hconn. clear Hconn.
  replace (exec (Connect _DB_PATH) w)
    with (Some (Ok {| conn := (connected w).1 |}, (connected w).2))
    by (unfold connected; simpl; by destruct (db_file w)).
  cbv iota beta. by rewrite run_bind, Hrun.
Qed.

Lemma init_db_journal_mode_failure_witness :
  run (get_request "r1") world_with_failing_pragma
  = (Raised (OperationalError "disk I/O error"),
     (connected world_with_failing_pragma).2,
     [GetDB; Connect _DB_PATH; IsWsl;
      Execute {| conn := 0 |} PragmaJournalModeWAL])
  ∧ _DB (connected world_with_failing_pragma).2 = None.
Proof.
  apply (init_db_journal_mode_failure
           (with_FileLock (request_lock_path "r1")
                          (_get_rest_task_no_lock "r1"))
           world_with_failing_pragma "disk I/O error");
    [reflexivity | discriminate | reflexivity | reflexivity | reflexivity].
Defined.

(** ** What never writes *)

Lemma never_get_rest_task_no_lock (P : action → bool) (request_id : string) :
  P GetDB = false →
  (∀ c, P (Execute c (SelectByRequestId request_id)) = false) →
  never P (_get_rest_task_no_lock request_id).
Proof.
  intros HG HS. unfold _get_rest_task_no_lock.
  apply never_bind; [never_perform_tac|]. intros [c|]; [|constructor].
  apply never_bind; [never_perform_tac|]. intros [row|]; [|constructor].
  apply never_bind; [apply never_lift|]. intros t. constructor.
Qed.

Lemma never_encode (P : action → bool) (r : RequestTask.t) :
  P (Print (RequestTask.encode_diagnostic r)) = false →
  never P (RequestTask.encode r).
Proof.
  intros HP. unfold RequestTask.encode.
  apply never_try_except; [apply never_lift|]. intros e.
  apply never_bind; [never_perform_tac|]. intros ?. constructor.
Qed.

Lemma never_dump_request_no_lock (P : action → bool) (r : RequestTask.t) :
  P GetDB = false →
  P (Print (RequestTask.encode_diagnostic r)) = false →
  (∀ c row, P (Execute c (InsertOrReplace row)) = false) →
  never P (_dump_request_no_lock r).
Proof.
  intros HG HP HI. unfold _dump_request_no_lock, RequestTask.to_row.
  apply never_bind.
  - apply never_bind; [by apply never_encode|]. intros p. apply never_lift.
  - intros row. apply never_bind; [never_perform_tac|].
    intros [c|]; [never_perform_tac | constructor].
Qed.

Lemma never_get_request (P : action → bool) (request_id : string) :
  never P init_only →
  P (LockAcquire (request_lock_path request_id)) = false →
  P (LockRelease (request_lock_path request_id)) = false →
  (∀ c, P (Execute c (SelectByRequestId request_id)) = false) →
  never P (get_request request_id).
Proof.
  intros Hi HA HR HS. unfold get_request.
  apply never_init_db; [done|]. apply never_with_FileLock; [done|done|].
  apply never_get_rest_task_no_lock; [|done].
  unfold init_only, init_db, mbind, prog_mbind in Hi.
  unfold perform in Hi. cbn [prog_bind] in Hi.
  by apply never_Act_inv in Hi as [HG _].
Qed.

Lemma never_insert_init_only : never is_insert init_only.
Proof. by apply never_init_only. Qed.

(** X7: [get_request] executes no insert, in any world and however it
    ends, and leaves the rows of every database file as they were. *)
Theorem get_request_never_writes (w : World) (request_id : string) :
  no_insert (run (get_request request_id) w).2 = true
  ∧ ∀ j, rows_at (run (get_request request_id) w).1.2 j = rows_at w j.
Proof.
  assert (Hni : no_insert (run (get_request request_id) w).2 = true).
  { apply (never_run is_insert). apply never_get_request; try done.
    apply never_insert_init_only. }
  split; [done|].
  destruct (run (get_request request_id) w) as [[o w'] tr] eqn:Hrun.
  by apply (run_rows_at _ w w' o tr Hrun).
Qed.

(** X8: whatever function [init_db] decorates, the initialisation itself
    writes no row: if the function executes no insert, the rows of every
    database file are after the call as they were before. *)
Theorem init_db_keeps_rows {A} (p : prog A) (w : World) :
  never is_insert p →
  ∀ j, rows_at (run (init_db p) w).1.2 j = rows_at w j.
Proof.
  intros Hp.
  assert (Hni : no_insert (run (init_db p) w).2 = true).
  { apply (never_run is_insert). apply never_init_db; [|done].
    apply never_insert_init_only. }
  destruct (run (init_db p) w) as [[o w'] tr] eqn:Hrun.
  by apply (run_rows_at _ w w' o tr Hrun).
Qed.

Lemma init_db_keeps_rows_witness :
  rows_at (run (init_db (_get_rest_task_no_lock "r1"))
               (new_process world_with_task)).1.2 0
  = rows_at (new_process world_with_task) 0.
Proof.
  apply (init_db_keeps_rows (_get_rest_task_no_lock "r1")).
  by apply never_get_rest_task_no_lock.
Defined.
(** ** Reading under the lock *)

(** X9: in a process whose [_DB] is set, [get_request] whose lock is free
    does not initialise again and reads inside the lock: it performs the
    lookup of [_DB] by [init_db], acquires the lock of the request, looks
    [_DB] up and selects the row, and releases the lock; the locks that
    are held are afterwards as before. *)
Theorem get_request_trace (w : World) (c : SQLiteConn) (request_id : string) :
  _DB w = Some c →
  lock_free w (request_lock_path request_id) →
  let '(_, w', tr) := run (get_request request_id) w in
  tr = [GetDB;
        LockAcquire (request_lock_path request_id);
        GetDB;
        Execute c (SelectByRequestId request_id);
        LockRelease (request_lock_path request_id)]
  ∧ held_locks w' = held_locks w.
Proof.
  intros Hdb (Hname & Hfree & _). unfold get_request.
  rewrite (run_init_db_ready _ w c Hdb).
  rewrite run_with_FileLock by done.
  unfold _get_rest_task_no_lock. rewrite run_bind.
  pose proof (run_perform GetDB
                (set_held_locks (request_lock_path request_id :: held_locks w)
                                w)) as HG.
  cbn [reply exec _DB set_held_locks] in HG. rewrite HG, Hdb. clear HG.
  cbv iota beta. rewrite run_bind.
  set (w1 := set_held_locks _ w).
  pose proof (run_perform (Execute c (SelectByRequestId request_id)) w1)
    as HS.
  cbn [reply] in HS. rewrite HS. clear HS.
  destruct (exec_is_Some (Execute c (SelectByRequestId request_id)) w1
              eq_refl) as [[r w2] Hexec].
  rewrite Hexec.
  assert (Hlocks : held_locks w2
                   = request_lock_path request_id :: held_locks w).
  { simpl in Hexec. destruct (files w !! conn c) as [db|];
      [|by injection Hexec as _ <-].
    destruct (rest_tasks db); by injection Hexec as _ <-. }
  destruct r as [[row|]|e]; cbv iota beta.
  - rewrite run_bind, run_lift.
    destruct (RequestTask.from_row row) as [t|e]; simpl;
      rewrite Hlocks; by rewrite filter_not_held.
  - simpl. rewrite Hlocks. by rewrite filter_not_held.
  - simpl. rewrite Hlocks. by rewrite filter_not_held.
Qed.

Lemma get_request_trace_witness :
  let '(_, w', tr) := run (get_request "r1") world_with_task in
  tr = [GetDB;
        LockAcquire (request_lock_path "r1");
        GetDB;
        Execute {| conn := 0 |} (SelectByRequestId "r1");
        LockRelease (request_lock_path "r1")]
  ∧ held_locks w' = held_locks world_with_task.
Proof.
  apply (get_request_trace world_with_task {| conn := 0 |} "r1");
    [reflexivity | apply lock_free_nil; reflexivity].
Defined.
Lemma RequestStatus_of_value_Ok (v : string) (s : RequestStatus) :
  RequestStatus_of_value v = Ok s → v = RequestStatus_value s.
Proof.
  unfold RequestStatus_of_value, RequestStatus_members.
  cbn [find RequestStatus_value].
  repeat match goal with
         | |- context [String.eqb ?a v] =>
             destruct (String.eqb_spec a v) as [<-|?]
         end; intros Hs; try discriminate Hs;
    by injection Hs as <-.
Qed.

Lemma bad_status_row_raises (row : Row) :
  bad_status_row row →
  ∃ e, RequestTask.from_row row = Err e ∧ type_name e = "ValueError".
Proof.
  intros (p & body & Hp & Hbody & Hst).
  unfold RequestTask.from_row. rewrite Hp. simpl.
  unfold RequestTask.decode. rewrite Hbody. simpl.
  destruct (RequestStatus_of_value (RequestTaskPayload.status p))
    as [s|e] eqn:Es.
  - apply RequestStatus_of_value_Ok in Es. by destruct (Hst s).
  - exists e. split; [done|]. revert Es.
    unfold RequestStatus_of_value.
    destruct (find _ _); [done|]. by intros [= <-].
Qed.

(** X10: a stored row whose status text is the value of no status makes
    [get_request] raise the [ValueError] of the decoding, not return
    [None]; the lock is released, and the rows stay as they were. *)
Theorem get_request_undecodable (w : World) (request_id : string)
    (row : Row) :
  store_ok w →
  lock_free w (request_lock_path request_id) →
  visible_rows w !! request_id = Some row →
  bad_status_row row →
  let '(o, w', _) := run (get_request request_id) w in
  (∃ e, o = Raised e ∧ type_name e = "ValueError")
  ∧ held_locks w' = held_locks w
  ∧ visible_rows w' = visible_rows w.
Proof.
  intros Hok (Hname & Hfree & _) Hrow Hbad.
  destruct (bad_status_row_raises row Hbad) as (e & He & Hty).
  destruct (run_get_request w request_id Hok Hfree)
    as (w' & tr & -> & _ & Hrows & Hheld & _).
  rewrite Hname, Hrow, He. split; [by exists e|]. done.
Qed.

Lemma store_ok_world_with_corrupt_row : store_ok world_with_corrupt_row.
Proof.
  split; [|split].
  - intros c [= <-]. by eexists.
  - intros i [= <-]. by eexists.
  - discriminate.
Qed.

Lemma bad_status_corrupt_row : bad_status_row corrupt_row.
Proof.
  eexists _, _. split; [reflexivity|]. split; [reflexivity|].
  by intros [].
Qed.

Lemma get_request_undecodable_witness :
  let '(o, w', _) := run (get_request "r9") world_with_corrupt_row in
  (∃ e, o = Raised e ∧ type_name e = "ValueError")
  ∧ held_locks w' = held_locks world_with_corrupt_row
  ∧ visible_rows w' = visible_rows world_with_corrupt_row.
Proof.
  apply (get_request_undecodable world_with_corrupt_row "r9" corrupt_row);
    [exact store_ok_world_with_corrupt_row
    | apply lock_free_nil; reflexivity
    | reflexivity | exact bad_status_corrupt_row].
Defined.

(** ** Waiting for the lock *)

Lemma run_init_db_blocked {A} (path : string) (body : prog A) (w : World) :
  store_ok w → path ∈ held_locks w →
  ∃ tr, run (init_db (with_FileLock path body)) w = (Blocked, ready w, tr)
        ∧ trace_without touches_rows tr = true.
Proof.
  intros Hok Hheld. rewrite run_init_db_split.
  destruct (run_init_only w Hok) as (tr1 & -> & Htr & _).
  destruct (ready_facts w Hok) as (_ & _ & _ & Hl).
  rewrite run_with_FileLock_held by (by rewrite Hl).
  exists (tr1 ++ []). split; [done|]. by rewrite app_nil_r.
Qed.

(** X11: while somebody else holds the lock of a request, [get_request]
    of it and [dump_reqest] of a record with its id wait, and have
    neither read nor written a row. *)
Theorem lock_held_blocks (w : World) (r : RequestTask.t) :
  store_ok w →
  request_lock_path (RequestTask.request_id r) ∈ held_locks w →
  let '(o1, w1, tr1) := run (get_request (RequestTask.request_id r)) w in
  let '(o2, w2, tr2) := run (dump_reqest r) w in
  o1 = Blocked ∧ o2 = Blocked
  ∧ trace_without touches_rows tr1 = true
  ∧ trace_without touches_rows tr2 = true
  ∧ visible_rows w1 = visible_rows w ∧ visible_rows w2 = visible_rows w.
Proof.
  intros Hok Hheld. unfold get_request, dump_reqest.
  destruct (run_init_db_blocked _ (_get_rest_task_no_lock
                                     (RequestTask.request_id r)) w Hok Hheld)
    as (tr1 & -> & Htr1).
  destruct (run_init_db_blocked _ (_dump_request_no_lock r) w Hok Hheld)
    as (tr2 & -> & Htr2).
  repeat split; try done; by apply ready_visible_rows.
Qed.

Lemma store_ok_world_with_lock_held : store_ok world_with_lock_held.
Proof.
  split; [|split].
  - intros c [= <-]. by eexists.
  - intros i [= <-]. by eexists.
  - discriminate.
Qed.

Lemma lock_held_blocks_witness :
  let '(o1, w1, tr1) := run (get_request "r1") world_with_lock_held in
  let '(o2, w2, tr2) := run (dump_reqest example_task) world_with_lock_held in
  o1 = Blocked ∧ o2 = Blocked
  ∧ trace_without touches_rows tr1 = true
  ∧ trace_without touches_rows tr2 = true
  ∧ visible_rows w1 = visible_rows world_with_lock_held
  ∧ visible_rows w2 = visible_rows world_with_lock_held.
Proof.
  apply (lock_held_blocks world_with_lock_held example_task);
    [exact store_ok_world_with_lock_held | by left].
Defined.

(** X12: [update_rest_task] never waits: it asks for no lock, so it goes
    on to read and write also while somebody else holds the lock of the
    request. *)
Theorem update_rest_task_never_waits (w : World) (request_id : string)
    (block : with_block) :
  (run (update_rest_task request_id block) w).1.1 ≠ Blocked.
Proof.
  assert (Hn : never is_lock_acquire (update_rest_task request_id block)).
  { unfold update_rest_task. apply never_init_db; [by apply never_init_only|].
    apply never_bind; [by apply never_get_rest_task_no_lock|].
    intros v. apply never_bind.
    - unfold yield_to. destruct v as [t|].
      + apply never_bind; [apply never_lift|]. intros ?. constructor.
      + apply never_bind; [apply never_lift|]. intros ?. constructor.
    - intros [t|]; [|constructor]. by apply never_dump_request_no_lock. }
  by apply never_locks_not_blocked.
Qed.
(** ** Writing under the lock *)

(** A record with a field that [json.dumps] rejects has no payload. *)
Lemma encode_rejected (r : RequestTask.t) (v : pyval) (e' : pyobject) p :
  v ∈ json_fields r → json_dumps v = Err e' →
  RequestTask.encode r ≠ Ret p.
Proof.
  intros Hv He Hp. unfold RequestTask.encode in Hp.
  destruct (json_dumps (RequestTask.request_body r)) as [tb|eb] eqn:Eb;
    [|simpl in Hp; destruct (String.eqb _ _); simpl in Hp; discriminate Hp].
  destruct (json_dumps (RequestTask.return_value r)) as [tv|ev] eqn:Ev;
    [|simpl in Hp; destruct (String.eqb _ _); simpl in Hp; discriminate Hp].
  destruct (json_dumps (RequestTask.error r)) as [te|ee] eqn:Ee;
    [|simpl in Hp; destruct (String.eqb _ _); simpl in Hp; discriminate Hp].
  unfold json_fields in Hv.
  repeat (apply elem_of_cons in Hv as [-> | Hv]; [congruence|]).
  by apply elem_of_nil in Hv.
Qed.



(** X14: [dump_reqest] of a record leaves the records of the other ids
    alone, whether the record encodes or not: [get_request] of another id
    returns after it what it returned before. *)
Theorem dump_reqest_other_ids (w : World) (r : RequestTask.t)
    (request_id : string) :
  store_ok w →
  request_lock_path (RequestTask.request_id r) ∉ held_locks w →
  request_lock_path request_id ∉ held_locks w →
  request_id ≠ RequestTask.request_id r →
  (run (get_request request_id) (run (dump_reqest r) w).1.2).1.1
  = (run (get_request request_id) w).1.1.
Proof.
  intros Hok Hfree Hfree' Hne.
  destruct (run_dump_reqest_any w r Hok Hfree)
    as (o & w1 & tr & -> & _ & Hheld & Hok1 & _ & _ & _ & _ & Hcases).
  cbn [fst snd].
  destruct (run_get_request w request_id Hok Hfree') as (w2 & tr2 & -> & _).
  destruct (run_get_request w1 request_id Hok1) as (w3 & tr3 & -> & _);
    [by rewrite Hheld|].
  cbn [fst].
  assert (Hrow : visible_rows w1 !! request_id = visible_rows w !! request_id).
  { destruct Hcases as [(p & row & _ & _ & _ & _ & _ & ->) | (e & _ & -> & _)];
      [|done].
    by rewrite lookup_insert_ne. }
  by rewrite Hrow.
Qed.

Lemma dump_reqest_other_ids_witness :
  (run (get_request "r2") (run (dump_reqest running_task)
                               world_with_task).1.2).1.1
  = (run (get_request "r2") world_with_task).1.1.
Proof.
  apply (dump_reqest_other_ids world_with_task running_task "r2");
    [exact store_ok_world_with_task | apply not_elem_of_nil
    | apply not_elem_of_nil | discriminate].
Defined.

(** X15: when [json.dumps] rejects a field of the record for what the
    field holds (a value or key without a JSON form, an integer of too
    many digits), [dump_reqest] raises after it has taken the lock,
    executes no insert, leaves the rows as they were, and has released
    the lock. *)
Theorem dump_reqest_rejected (w : World) (r : RequestTask.t) (v : pyval)
    (e' : pyobject) :
  store_ok w →
  lock_free w (request_lock_path (RequestTask.request_id r)) →
  v ∈ json_fields r → json_dumps v = Err e' →
  type_name e' ≠ "RecursionError" →
  let '(o, w', tr) := run (dump_reqest r) w in
  (∃ e, o = Raised e ∧ encoding_error e)
  ∧ existsb is_lock_acquire tr = true
  ∧ no_insert tr = true
  ∧ visible_rows w' = visible_rows w
  ∧ held_locks w' = held_locks w.
Proof.
  intros Hok (Hname & Hfree & _) Hv He _.
  destruct (run_dump_reqest_any w r Hok Hfree)
    as (o & w1 & tr & -> & _ & Hheld & _ & _ & _ & _ & _ & Hcases).
  destruct Hcases as [(p & row & _ & Hp & _)
                     | (e & -> & Hrows & [[Hn _] | (_ & Hacq & Hwhy)])].
  - by destruct (encode_rejected r v e' p Hv He).
  - congruence.
  - destruct Hwhy as [(Hty & _ & Hni) | (_ & _ & p & Hp)].
    + split; [by exists e|]. done.
    + by destruct (encode_rejected r v e' p Hv He).
Qed.

Lemma dump_reqest_rejected_witness :
  let '(o, w', tr) := run (dump_reqest task_with_bytes_error) fresh_world in
  (∃ e, o = Raised e ∧ encoding_error e)
  ∧ existsb is_lock_acquire tr = true
  ∧ no_insert tr = true
  ∧ visible_rows w' = visible_rows fresh_world
  ∧ held_locks w' = held_locks fresh_world.
Proof.
  apply (dump_reqest_rejected fresh_world task_with_bytes_error
           (RequestTask.error task_with_bytes_error)
           (TypeError "Object of type bytes is not JSON serializable"));
    [exact store_ok_fresh_world | apply lock_free_nil; reflexivity
    | unfold json_fields; repeat constructor | reflexivity | discriminate].
Defined.

(** ** From one process to the next *)

Lemma connection_current_ready (w : World) :
  connection_current w → connection_current (ready w).
Proof.
  intros Hcur. unfold ready. destruct (_DB w) eqn:Hdb; [done|].
  unfold initialised. destruct (connected w) as [i w0] eqn:E.
  assert (Hi : db_file w0 = Some i).
  { unfold connected in E.
    destruct (db_file w) eqn:Ef; by injection E as <- <-. }
  unfold connection_current, with_table.
  destruct (files w0 !! i); simpl; by intros c [= <-].
Qed.

(** X16: a record that one process writes is read by a process that
    starts afterwards, provided the connection of the writer is to the
    file that [_DB_PATH] names. *)
Theorem dump_reqest_persists (w : World) (r : RequestTask.t) :
  store_ok w →
  connection_current w →
  journal_mode_ok w = true →
  lock_free w (request_lock_path (RequestTask.request_id r)) →
  json_native (RequestTask.request_body r) = true →
  json_native (RequestTask.return_value r) = true →
  json_native (RequestTask.error r) = true →
  pid_fits r = true →
  (run (get_request (RequestTask.request_id r))
       (new_process (run (dump_reqest r) w).1.2)).1.1
  = Returned (Some r).
Proof.
  intros Hok Hcur Hjm Hfree Hb Hv He Hpid.
  destruct (encode_decode_native r Hb Hv He) as (p & Hp & Hdec).
  destruct (run_dump_reqest w r p Hok Hfree Hp Hpid)
    as (row & w1 & tr & Hrow & -> & _ & Hrows & Hheld & Hok1 & HDB & Hfile
        & Hwsl & Hje).
  cbn [fst snd]. destruct Hfree as (Hname & Hfree & _).
  pose proof (connection_current_ready w Hcur) as Hcur1.
  destruct (ready_facts w Hok) as (c & Hc & _ & _).
  assert (Hf1 : db_file w1 = Some (conn c)).
  { rewrite Hfile. by apply Hcur1. }
  assert (Hok2 : store_ok (new_process w1)).
  { destruct Hok1 as (_ & H2 & _). split; [done|]. split; [exact H2|].
    intros _. unfold journal_mode_ok, new_process. simpl.
    rewrite Hwsl, Hje. exact Hjm. }
  assert (Hrows2 : visible_rows (new_process w1) = visible_rows w1).
  { unfold visible_rows, open_file, new_process. simpl.
    rewrite Hf1, HDB, Hc. done. }
  destruct (run_get_request (new_process w1) (RequestTask.request_id r) Hok2)
    as (w3 & tr3 & -> & _); [simpl; by rewrite Hheld|].
  rewrite Hname, Hrows2, Hrows, lookup_insert_eq. cbn [fst].
  by rewrite (from_row_of_encoded r p row Hp Hdec Hrow).
Qed.

Lemma dump_reqest_persists_witness :
  (run (get_request "r1")
       (new_process (run (dump_reqest running_task) world_with_task).1.2)).1.1
  = Returned (Some running_task).
Proof.
  apply (dump_reqest_persists world_with_task running_task);
    [exact store_ok_world_with_task | by intros c [= <-] | reflexivity
    | apply lock_free_nil; reflexivity
    | reflexivity | reflexivity | reflexivity | reflexivity].
Defined.

(** ** Updating a stored record *)

(** [update_rest_task] on an id with a stored row: the row is decoded,
    the block runs on the record, and the record is written back. *)
Lemma run_update_rest_task_found (w : World) (request_id : string)
    (block : with_block) (row : Row) :
  store_ok w →
  visible_rows w !! request_id = Some row →
  ∃ c tr1,
    _DB (ready w) = Some c
    ∧ files (ready w) !! conn c
      = Some {| rest_tasks := Some (visible_rows w) |}
    ∧ no_insert tr1 = true
    ∧ run (update_rest_task request_id block) w
      = match RequestTask.from_row row ≫= on_task block with
        | Err e => (Raised e, ready w, tr1)
        | Ok t' =>
            let '(o, w', tr) := run (_dump_request_no_lock t') (ready w) in
            (o, w', tr1 ++ tr)
        end.
Proof.
  intros Hok Hrow. unfold update_rest_task.
  destruct (run_init_db
              (rest_task ← _get_rest_task_no_lock request_id;
               rest_task ← yield_to block rest_task;
               match rest_task with
               | Some t => _dump_request_no_lock t
               | None => Ret ()
               end) w Hok) as (tr0 & Hni & _ & _ & ->).
  destruct (ready_facts w Hok) as (c & Hdb & Hc & _).
  exists c, (tr0 ++ [GetDB; Execute c (SelectByRequestId request_id)]).
  split; [done|]. split; [done|].
  split; [unfold no_insert in *; by rewrite forallb_app, Hni|].
  rewrite run_bind.
  rewrite (run_get_rest_task_no_lock _ c (visible_rows w)); [|done|done].
  rewrite Hrow. cbv iota beta.
  destruct (RequestTask.from_row row) as [t|e]; simpl;
    [|done].
  unfold yield_to. rewrite !run_bind, run_lift.
  destruct (on_task block t) as [t'|e]; cbn [run]; [|done].
  destruct (run (_dump_request_no_lock t') (ready w)) as [[o w'] tr].
  simpl. by rewrite <- app_assoc.
Qed.


(** X18: when the block raises, [update_rest_task] raises what the block
    raised and writes nothing back: no insert is executed and the rows
    stay as they were. *)
Theorem update_rest_task_block_raises (w : World) (request_id : string)
    (block : with_block) (row : Row) (t : RequestTask.t) (e : pyobject) :
  store_ok w →
  visible_rows w !! request_id = Some row →
  RequestTask.from_row row = Ok t →
  on_task block t = Err e →
  let '(o, w', tr) := run (update_rest_task request_id block) w in
  o = Raised e ∧ no_insert tr = true ∧ visible_rows w' = visible_rows w.
Proof.
  intros Hok Hrow Ht Hb.
  destruct (run_update_rest_task_found w request_id block row Hok Hrow)
    as (c & tr1 & _ & _ & Hni & ->).
  rewrite Ht. simpl. rewrite Hb.
  split; [done|]. split; [done|]. by apply ready_visible_rows.
Qed.

Lemma update_rest_task_block_raises_witness :
  let '(o, w', tr) :=
    run (update_rest_task "r1" failing_block) world_with_task in
  o = Raised (ValueError "boom") ∧ no_insert tr = true
  ∧ visible_rows w' = visible_rows world_with_task.
Proof.
  apply (update_rest_task_block_raises world_with_task "r1" failing_block
           example_row example_task);
    [exact store_ok_world_with_task | by vm_compute | by vm_compute
    | reflexivity].
Defined.

(** X19: a stored row whose status text is the value of no status makes
    [update_rest_task] raise the [ValueError] of the decoding whatever the
    block is; nothing is written back. *)
Theorem update_rest_task_undecodable (w : World) (request_id : string)
    (block : with_block) (row : Row) :
  store_ok w →
  visible_rows w !! request_id = Some row →
  bad_status_row row →
  let '(o, w', tr) := run (update_rest_task request_id block) w in
  (∃ e, o = Raised e ∧ type_name e = "ValueError")
  ∧ no_insert tr = true ∧ visible_rows w' = visible_rows w.
Proof.
  intros Hok Hrow Hbad.
  destruct (bad_status_row_raises row Hbad) as (e & Ht & Hty).
  destruct (run_update_rest_task_found w request_id block row Hok Hrow)
    as (c & tr1 & _ & _ & Hni & ->).
  rewrite Ht. simpl.
  split; [by exists e|]. split; [done|]. by apply ready_visible_rows.
Qed.

Lemma update_rest_task_undecodable_witness :
  let '(o, w', tr) :=
    run (update_rest_task "r9" mark_running) world_with_corrupt_row in
  (∃ e, o = Raised e ∧ type_name e = "ValueError")
  ∧ no_insert tr = true
  ∧ visible_rows w' = visible_rows world_with_corrupt_row.
Proof.
  apply (update_rest_task_undecodable world_with_corrupt_row "r9" mark_running
           corrupt_row);
    [exact store_ok_world_with_corrupt_row | reflexivity
    | exact bad_status_corrupt_row].
Defined.

(** ** Lock files *)

Lemma string_app_inj_r (a b s : string) : a +:+ s = b +:+ s → a = b.
Proof.
  revert b. induction a as [|c a IH]; intros [|c' b] H; simpl in H.
  - done.
  - apply (f_equal String.length) in H. simpl in H.
    rewrite string_app_length in H. lia.
  - apply (f_equal String.length) in H. simpl in H.
    rewrite string_app_length in H. lia.
  - injection H as -> H. f_equal. by apply IH.
Qed.

Lemma request_lock_path_eq (request_id : string) :
  request_lock_path request_id
  = "~/.sky/api_server/." +:+ request_id +:+ ".lock".
Proof. reflexivity. Qed.

Lemma request_lock_path_inj (a b : string) :
  request_lock_path a = request_lock_path b → a = b.
Proof.
  rewrite !request_lock_path_eq. intros H.
  simpl in H. injection H as H. by apply string_app_inj_r in H.
Qed.

(** X20: the lock file of a request is named by the request id between
    a dot and [.lock], in the directory of the database file, and the lock
    files of two different request ids differ. *)
Theorem request_lock_path_distinct (a b : string) :
  a ≠ b →
  request_lock_path a ≠ request_lock_path b
  ∧ request_lock_path a = dirname _DB_PATH +:+ "/." +:+ a +:+ ".lock".
Proof.
  intros Hne. split; [|reflexivity].
  intros H. by apply Hne, request_lock_path_inj.
Qed.

Lemma request_lock_path_distinct_witness :
  request_lock_path "r1" ≠ request_lock_path "r2"
  ∧ request_lock_path "r1" = dirname _DB_PATH +:+ "/." +:+ "r1" +:+ ".lock".
Proof. apply (request_lock_path_distinct "r1" "r2"). discriminate. Defined.

(** ** Listing *)

Lemma from_rows_Forall2 (rows : list Row) (ts : list RequestTask.t) :
  from_rows rows = Ok ts
  ↔ Forall2 (λ row t, RequestTask.from_row row = Ok t) rows ts.
Proof.
  revert ts. induction rows as [|row rows IH]; intros ts; simpl.
  - split.
    + intros [= <-]. constructor.
    + intros H. by inversion H.
  - destruct (RequestTask.from_row row) as [t|e] eqn:Et; simpl.
    + destruct (from_rows rows) as [ts'|e] eqn:Ets; simpl.
      * split.
        -- intros [= <-]. constructor; [done|]. by apply IH.
        -- intros H. inversion H as [|? t' ? ts'' Ht Hts]; subst.
           apply IH in Hts. congruence.
      * split; [done|]. intros H.
        inversion H as [|? t' ? ts'' Ht Hts]; subst. by apply IH in Hts.
    + split; [done|]. intros H.
      inversion H as [|? t' ? ts'' Ht Hts]; subst. congruence.
Qed.

Lemma from_rows_first_failure (good rest : list Row) (bad : Row)
    (e : pyobject) :
  Forall (λ row, ∃ t, RequestTask.from_row row = Ok t) good →
  RequestTask.from_row bad = Err e →
  from_rows (good ++ bad :: rest) = Err e.
Proof.
  intros Hgood Hbad. induction Hgood as [|row good [t Ht] _ IH]; simpl.
  - by rewrite Hbad.
  - by rewrite Ht, IH.
Qed.

(** X22: [get_request_tasks] decodes the rows that the query answers
    with, all of them and in their order: where every row decodes, it
    returns the list of the decoded records; a row whose status text is
    the value of no status, after rows that decode, makes the whole
    listing raise [ValueError]; and no answer gives the empty list. *)
Theorem get_request_tasks_decodes (w : World)
    (fetchall : SQLiteConn → prog (option (list Row)))
    (answer : option (list Row)) (tr : list action) :
  store_ok w →
  (∀ c, run (fetchall c) (ready w) = (Returned answer, ready w, tr)) →
  let o := (run (get_request_tasks fetchall) w).1.1 in
  match answer with
  | None => o = Returned []
  | Some rows =>
      (∀ ts, Forall2 (λ row t, RequestTask.from_row row = Ok t) rows ts →
             o = Returned ts)
      ∧ (∀ good bad rest,
           rows = good ++ bad :: rest →
           Forall (λ row, ∃ t, RequestTask.from_row row = Ok t) good →
           bad_status_row bad →
           ∃ e, o = Raised e ∧ type_name e = "ValueError")
  end.
Proof.
  intros Hok Hfetch. unfold get_request_tasks.
  destruct (run_init_db
              (db ← perform GetDB;
               match db with
               | None => Raise (PyObject "AssertionError" "")
               | Some c =>
                   rows ← fetchall c;
                   match rows with
                   | None => Ret []
                   | Some rows => lift (from_rows rows)
                   end
               end) w Hok) as (tr1 & _ & _ & _ & ->).
  destruct (ready_facts w Hok) as (c & Hdb & _ & _).
  rewrite run_bind.
  pose proof (run_perform GetDB (ready w)) as HG.
  cbn [reply exec] in HG. rewrite HG, Hdb. clear HG.
  cbv iota beta. rewrite run_bind, Hfetch.
  destruct answer as [rows|]; cbv iota beta; [|done].
  rewrite run_lift. split.
  - intros ts Hts. apply from_rows_Forall2 in Hts. by rewrite Hts.
  - intros good bad rest -> Hgood Hbad.
    destruct (bad_status_row_raises bad Hbad) as (e & He & Hty).
    rewrite (from_rows_first_failure good rest bad e Hgood He).
    by exists e.
Qed.

Lemma get_request_tasks_decodes_witness :
  let o := (run (get_request_tasks (fetch_rows [example_row; corrupt_row]))
                world_with_task).1.1 in
  (∀ ts, Forall2 (λ row t, RequestTask.from_row row = Ok t)
           [example_row; corrupt_row] ts →
         o = Returned ts)
  ∧ (∀ good bad rest,
       [example_row; corrupt_row] = good ++ bad :: rest →
       Forall (λ row, ∃ t, RequestTask.from_row row = Ok t) good →
       bad_status_row bad →
       ∃ e, o = Raised e ∧ type_name e = "ValueError").
Proof.
  apply (get_request_tasks_decodes world_with_task
           (fetch_rows [example_row; corrupt_row])
           (Some [example_row; corrupt_row]) []);
    [exact store_ok_world_with_task | reflexivity].
Defined.

(** X23: [get_request_tasks] takes no lock of its own: if the query asks
    for none, the listing never waits, whichever locks are held. *)
Theorem get_request_tasks_never_waits (w : World)
    (fetchall : SQLiteConn → prog (option (list Row))) :
  (∀ c, never is_lock_acquire (fetchall c)) →
  (run (get_request_tasks fetchall) w).1.1 ≠ Blocked.
Proof.
  intros Hfetch. apply never_locks_not_blocked. unfold get_request_tasks.
  apply never_init_db; [by apply never_init_only|].
  apply never_bind; [never_perform_tac|]. intros [c|]; [|constructor].
  apply never_bind; [done|]. intros [rows|]; [apply never_lift|constructor].
Qed.

Lemma get_request_tasks_never_waits_witness :
  (run (get_request_tasks (fetch_rows [example_row])) world_with_lock_held).1.1
  ≠ Blocked.
Proof.
  apply (get_request_tasks_never_waits world_with_lock_held
           (fetch_rows [example_row])).
  intros c. constructor.
Defined.
(** ** An error through the store *)

Section StoredError.
Context `{Handlers}.


End StoredError.

(** ** More on initialisation *)

Lemma run_init_only_DB (w w1 : World) (tr : list action) :
  run init_only w = (Returned (), w1, tr) → is_Some (_DB w1).
Proof.
  unfold init_only, init_db. rewrite !run_bind.
  pose proof (run_perform GetDB w) as HG. cbn [reply exec] in HG.
  rewrite HG. clear HG. cbv iota beta. rewrite run_bind.
  destruct (_DB w) as [c|] eqn:Hdb.
  - cbn [run]. intros [= <- _]. by rewrite Hdb.
  - rewrite run_bind.
    destruct (run (SQLiteConn_new _DB_PATH create_table) w)
      as [[[c | e |] w2] tr2]; [|done|done].
    pose proof (run_perform (SetDB c) w2) as HS. cbn [reply exec] in HS.
    rewrite HS. clear HS. cbn [run]. by intros [= <- _].
Qed.

(** X25: the function that [init_db] decorates runs only where [_DB] is
    set: in every world, either the initialisation raises and the
    function does not run, or the function starts in a world in which
    [_DB] holds a connection; the initialisation itself never waits. *)
Theorem init_db_establishes_DB {A} (p : prog A) (w : World) :
  match run init_only w with
  | (Returned _, w1, tr1) =>
      is_Some (_DB w1)
      ∧ run (init_db p) w
        = (let '(o, w', tr) := run p w1 in (o, w', tr1 ++ tr))
  | (Raised e, w1, tr1) => run (init_db p) w = (Raised e, w1, tr1)
  | (Blocked, _, _) => False
  end.
Proof.
  rewrite run_init_db_split.
  pose proof (never_locks_not_blocked init_only w
                (never_init_only is_lock_acquire eq_refl eq_refl eq_refl
                   (λ _, eq_refl) (λ _, eq_refl) (λ _, eq_refl))) as Hnb.
  destruct (run init_only w) as [[[[] | e |] w1] tr1] eqn:Hrun; [|done|done].
  split; [|done]. by eapply run_init_only_DB.
Qed.

(** X26: in a store that is in order the initialisation happens once per
    process: after a first call of a decorated function, a further call
    only looks [_DB] up and leaves the world as it is. *)
Theorem init_db_once (w : World) :
  store_ok w →
  let w1 := (run init_only w).1.2 in
  run init_only w1 = (Returned (), w1, [GetDB]).
Proof.
  intros Hok. destruct (run_init_only w Hok) as (tr1 & -> & _).
  cbn [fst snd]. destruct (ready_facts w Hok) as (c & Hdb & _).
  unfold init_only. by rewrite (run_init_db_ready _ _ c Hdb).
Qed.

Lemma init_db_once_witness :
  let w1 := (run init_only fresh_world).1.2 in
  run init_only w1 = (Returned (), w1, [GetDB]).
Proof. apply (init_db_once fresh_world). exact store_ok_fresh_world. Defined.

(** ** Tuples *)

(** X27: a record whose return value is a tuple of values whose list is
    JSON-native is encoded, and decodes to the record with that list in
    place of the tuple. *)
Theorem tuple_return_value_decodes_as_list (r : RequestTask.t)
    (l : list pyval) :
  RequestTask.return_value r = PTuple l →
  json_native (PList l) = true →
  json_native (RequestTask.request_body r) = true →
  json_native (RequestTask.error r) = true →
  RequestTask.encode r ≫= (λ p, lift (RequestTask.decode p))
  = Ret (RequestTask.mk (RequestTask.request_id r) (RequestTask.name r)
           (RequestTask.entrypoint r) (RequestTask.request_body r)
           (RequestTask.status r) (PList l) (RequestTask.error r)
           (RequestTask.pid r)).
Proof.
  intros Hrv Hl Hb He.
  set (r' := RequestTask.mk _ _ _ _ _ (PList l) _ _).
  destruct (encode_decode_native r' Hb Hl He) as (p & Hp & Hdec).
  assert (Hp' : RequestTask.encode r = Ret p).
  { unfold RequestTask.encode in Hp |- *. rewrite Hrv.
    cbn [RequestTask.request_body RequestTask.return_value RequestTask.error
         RequestTask.request_id RequestTask.name RequestTask.entrypoint
         RequestTask.status RequestTask.pid r'] in Hp.
    change (json_dumps (PTuple l)) with (json_dumps (PList l)).
    destruct (json_dumps (RequestTask.request_body r)); [|simpl in Hp;
      destruct (String.eqb _ _); simpl in Hp; discriminate Hp].
    destruct (json_dumps (PList l)); [|simpl in Hp;
      destruct (String.eqb _ _); simpl in Hp; discriminate Hp].
    destruct (json_dumps (RequestTask.error r)); [|simpl in Hp;
      destruct (String.eqb _ _); simpl in Hp; discriminate Hp].
    exact Hp. }
  rewrite Hp'. unfold mbind, prog_mbind. simpl. by rewrite Hdec.
Qed.

Lemma tuple_return_value_decodes_as_list_witness :
  RequestTask.encode
    (RequestTask.mk "r1" "echo" "sky.launch" (PDict []) SUCCEEDED
                    (PTuple [PInt 1; PStr "a"]) PNone None)
  ≫= (λ p, lift (RequestTask.decode p))
  = Ret (RequestTask.mk "r1" "echo" "sky.launch" (PDict []) SUCCEEDED
                        (PList [PInt 1; PStr "a"]) PNone None).
Proof.
  apply (tuple_return_value_decodes_as_list
           (RequestTask.mk "r1" "echo" "sky.launch" (PDict []) SUCCEEDED
                           (PTuple [PInt 1; PStr "a"]) PNone None)
           [PInt 1; PStr "a"]); reflexivity.
Defined.
